(** * Redis command splitter (source/common/redis/command_splitter_impl.cc)

    A shallow embedding of the command splitter of the Redis proxy: the
    instance that validates and dispatches a RESP command, the single-server
    requests (simple commands and EVAL), and the fan-out requests (MGET and
    MSET) that split a command per upstream host and aggregate the child
    responses.

    Effects are threaded through a small state-and-abort monad [M]: the state
    [Out] records everything the splitter does to its collaborators (calls of
    [SplitCallbacks::onResponse], upstream requests submitted to the
    connection pool, pool handles cancelled, statistics counters), and [None]
    stands for a process abort ([ASSERT], [NOT_REACHED], a null handle
    dereferenced). *)

From Stdlib Require Import Ascii String.
From stdpp Require Import base list strings gmap.

Open Scope list_scope.
Set Warnings "-register-all".

(** ** RESP values (common/redis/codec.h) *)

Inductive RespType := Null | SimpleString | BulkString | Integer | Error | Array.

Inductive RespValue :=
| RNull
| RSimpleString (s : string)
| RBulkString (s : string)
| RInteger (n : Z)
| RError (s : string)
| RArray (l : list RespValue).

(** [RespValue::type()] *)
Definition type_of (v : RespValue) : RespType :=
  match v with
  | RNull => Null
  | RSimpleString _ => SimpleString
  | RBulkString _ => BulkString
  | RInteger _ => Integer
  | RError _ => Error
  | RArray _ => Array
  end.

(** [RespValue::type(RespType)]: the setter destroys the old payload and
    constructs a fresh, empty one of the new type (empty string, empty
    array, integer 0). *)
Definition set_type (t : RespType) : RespValue :=
  match t with
  | Null => RNull
  | SimpleString => RSimpleString ""
  | BulkString => RBulkString ""
  | Integer => RInteger 0
  | Error => RError ""
  | Array => RArray []
  end.

(** [RespValue::asString()] read access (only meaningful on string types). *)
Definition asString (v : RespValue) : string :=
  match v with
  | RSimpleString s | RBulkString s | RError s => s
  | _ => ""
  end.

(** Writing [asString()] of a string-typed value. *)
Definition with_string (v : RespValue) (s : string) : RespValue :=
  match v with
  | RSimpleString _ => RSimpleString s
  | RBulkString _ => RBulkString s
  | RError _ => RError s
  | other => other
  end.

(** [RespValue::asArray()] read access. *)
Definition asArray (v : RespValue) : list RespValue :=
  match v with
  | RArray l => l
  | _ => []
  end.

Definition is_bulk_string (v : RespValue) : bool :=
  match v with RBulkString _ => true | _ => false end.

(** [Utility::makeError] *)
Definition makeError (error : string) : RespValue := RError error.

(** Decimal rendering of an unsigned integer, as [fmt::format("{}", n)]. *)
Fixpoint fmt_nat_aux (fuel n : nat) (acc : string) : string :=
  match fuel with
  | 0 => acc
  | S f =>
      let acc' := String (ascii_of_nat (48 + n mod 10)) acc in
      if n <? 10 then acc' else fmt_nat_aux f (n / 10) acc'
  end.

Definition fmt_nat (n : nat) : string := fmt_nat_aux (S n) n "".

(** ** ASCII lower-casing (common/common/utility: [ToLowerTable]) *)

(** The table maps ['A'..'Z'] to ['a'..'z'] and every other byte to itself. *)
Definition to_lower_char (c : ascii) : ascii :=
  let n := nat_of_ascii c in
  if (65 <=? n) && (n <=? 90) then ascii_of_nat (n + 32) else c.

(** [ToLowerTable::toLowerCase(std::string&)] *)
Fixpoint to_lower (s : string) : string :=
  match s with
  | EmptyString => EmptyString
  | String c s' => String (to_lower_char c) (to_lower s')
  end.

(** ** Effects: callbacks, connection pool, statistics *)

Record Out := mkOut {
  responses : list RespValue;             (* SplitCallbacks::onResponse, in order *)
  upstream : list (string * RespValue);   (* ConnPool::Instance::makeRequest(key, value) *)
  cancels : list nat;                     (* PoolRequest::cancel() on a handle *)
  invalid_request : nat;                  (* splitter.invalid_request *)
  unsupported_command : nat;              (* splitter.unsupported_command *)
  command_totals : list string            (* command.<name>.total increments *)
}.

Definition M (A : Type) : Type := Out -> option (A * Out).

Global Instance M_ret : MRet M := fun A a o => Some (a, o).
Global Instance M_bind : MBind M :=
  fun A B f m o => match m o with Some (a, o') => f a o' | None => None end.

(** A process abort. *)
Definition abort {A} : M A := fun _ => None.

(** [ASSERT(b)] *)
Definition assert (b : bool) : M unit := if b then mret tt else abort.

Definition out_respond (o : Out) (v : RespValue) : Out :=
  {| responses := responses o ++ [v]; upstream := upstream o; cancels := cancels o;
     invalid_request := invalid_request o; unsupported_command := unsupported_command o;
     command_totals := command_totals o |}.

Definition out_upstream (o : Out) (key : string) (v : RespValue) : Out :=
  {| responses := responses o; upstream := upstream o ++ [(key, v)]; cancels := cancels o;
     invalid_request := invalid_request o; unsupported_command := unsupported_command o;
     command_totals := command_totals o |}.

Definition out_cancel (o : Out) (h : nat) : Out :=
  {| responses := responses o; upstream := upstream o; cancels := cancels o ++ [h];
     invalid_request := invalid_request o; unsupported_command := unsupported_command o;
     command_totals := command_totals o |}.

Definition out_invalid (o : Out) : Out :=
  {| responses := responses o; upstream := upstream o; cancels := cancels o;
     invalid_request := S (invalid_request o); unsupported_command := unsupported_command o;
     command_totals := command_totals o |}.

Definition out_unsupported (o : Out) : Out :=
  {| responses := responses o; upstream := upstream o; cancels := cancels o;
     invalid_request := invalid_request o; unsupported_command := S (unsupported_command o);
     command_totals := command_totals o |}.

Definition out_total (o : Out) (name : string) : Out :=
  {| responses := responses o; upstream := upstream o; cancels := cancels o;
     invalid_request := invalid_request o; unsupported_command := unsupported_command o;
     command_totals := command_totals o ++ [name] |}.

(** [callbacks.onResponse(v)] *)
Definition onResponse (v : RespValue) : M unit := fun o => Some (tt, out_respond o v).

(** [handle->cancel()] *)
Definition cancel_handle (h : nat) : M unit := fun o => Some (tt, out_cancel o h).

(** [stats_.invalid_request_.inc()] *)
Definition inc_invalid_request : M unit := fun o => Some (tt, out_invalid o).

(** [stats_.unsupported_command_.inc()] *)
Definition inc_unsupported_command : M unit := fun o => Some (tt, out_unsupported o).

(** [handler->second.total_.inc()] *)
Definition inc_total (name : string) : M unit := fun o => Some (tt, out_total o name).

(** ** Command handlers and the command map *)

Inductive Handler := SimpleHandler | EvalHandler | MGETHandler | MSETHandler.

(** [InstanceImpl::addHandler]: [emplace] keeps an existing entry. *)
Definition InstanceImpl_addHandler (name : string) (h : Handler) (command_map : gmap string Handler)
  : gmap string Handler :=
  let to_lower_name := to_lower name in
  match command_map !! to_lower_name with
  | Some _ => command_map
  | None => <[to_lower_name := h]> command_map
  end.

(** The command map built by the [InstanceImpl] constructor from the
    catalogue ([SupportedCommands::simpleCommands()], [evalCommands()],
    [mget()] = "mget", [mset()] = "mset"). *)
Definition InstanceImpl_command_map (simple_commands eval_commands : list string)
  : gmap string Handler :=
  let cm := foldl (fun cm c => InstanceImpl_addHandler c SimpleHandler cm) ∅ simple_commands in
  let cm := foldl (fun cm c => InstanceImpl_addHandler c EvalHandler cm) cm eval_commands in
  InstanceImpl_addHandler "mset" MSETHandler (InstanceImpl_addHandler "mget" MGETHandler cm).

(** ** A sample deployment: every key on one host, a pool that always (or
    never) gives a handle, and groups iterated in insertion order *)

Definition single_host (key : string) : string := "10.0.0.1:6379".

Definition pool_up (key : string) (request : RespValue) : option nat := Some 0.

Definition pool_down (key : string) (request : RespValue) : option nat := None.

Definition insertion_order (X : Type) (m : list (string * list X)) : list (string * list X) := m.

Definition out0 : Out := mkOut [] [] [] 0 0 [].

Definition redis_commands : gmap string Handler := InstanceImpl_command_map ["get"; "set"] ["eval"; "evalsha"].

Section Splitter.

(** [ConnPool::Instance::getHost(key)]: the upstream host of a key. *)
Variable getHost : string -> string.

(** [ConnPool::Instance::makeRequest(key, value, callbacks)]: the handle of
    the in-flight upstream request, or none when no upstream is available. *)
Variable pool_make : string -> RespValue -> option nat.

(** The iteration order of the [std::unordered_map] that groups keys by
    host; [m] lists the hosts in first-seen order. *)
Variable iter_order : forall X : Type, list (string * list X) -> list (string * list X).

(** The pool call: records the submitted request and returns the handle. *)
Definition conn_makeRequest (key : string) (v : RespValue) : M (option nat) :=
  fun o => Some (pool_make key v, out_upstream o key v).

(** ** Request state *)

(** [FragmentedRequest::PendingRequest]: fragment index, original indexes of
    the keys it carries, and its pool handle. *)
Record PendingRequest := mkPending {
  pr_index : nat;
  pr_response_indexes : list nat;
  pr_handle : option nat
}.

(** State of an [MGETRequest] / [MSETRequest]. [pending_response] is [None]
    once the unique pointer has been moved into the callbacks. *)
Record FragState := mkFrag {
  pending_requests : list PendingRequest;
  num_pending_responses : nat;
  error_count : nat;
  pending_response : option RespValue
}.

Inductive SplitRequest :=
| SingleServerRequest (handle : option nat)   (* SimpleRequest, EvalRequest *)
| MGETRequest (s : FragState)
| MSETRequest (s : FragState).

Definition set_handle (h : option nat) (p : PendingRequest) : PendingRequest :=
  mkPending (pr_index p) (pr_response_indexes p) h.

(** [pending_requests_[index].handle_ = h] *)
Definition set_pending_handle (index : nat) (h : option nat) (s : FragState) : FragState :=
  mkFrag (alter (set_handle h) index (pending_requests s)) (num_pending_responses s)
         (error_count s) (pending_response s).

(** ** SingleServerRequest, SimpleRequest, EvalRequest *)

Definition SplitRequestBase_onWrongNumberOfArguments (incoming : RespValue) : M unit :=
  onResponse (makeError ("wrong number of arguments for '" ++
                           asString (nth 0 (asArray incoming) RNull) ++ "' command")%string).

Definition SingleServerRequest_onResponse (v : RespValue) : M SplitRequest :=
  onResponse v ;; mret (SingleServerRequest None).

Definition SingleServerRequest_onFailure : M SplitRequest :=
  onResponse (makeError "upstream failure") ;; mret (SingleServerRequest None).

(** [handle_->cancel(); handle_ = nullptr;] (a null handle is dereferenced). *)
Definition SingleServerRequest_cancel (handle : option nat) : M SplitRequest :=
  match handle with
  | Some h => cancel_handle h ;; mret (SingleServerRequest None)
  | None => abort
  end.

Definition SimpleRequest_create (incoming : RespValue) : M (option SplitRequest) :=
  handle ← conn_makeRequest (asString (nth 1 (asArray incoming) RNull)) incoming;
  match handle with
  | None => onResponse (makeError "no upstream host") ;; mret None
  | Some _ => mret (Some (SingleServerRequest handle))
  end.

Definition EvalRequest_create (incoming : RespValue) : M (option SplitRequest) :=
  if length (asArray incoming) <? 4 then
    SplitRequestBase_onWrongNumberOfArguments incoming ;; mret None
  else
    handle ← conn_makeRequest (asString (nth 3 (asArray incoming) RNull)) incoming;
    match handle with
    | None => onResponse (makeError "no upstream host") ;; mret None
    | Some _ => mret (Some (SingleServerRequest handle))
    end.

(** ** MGETRequest and MSETRequest *)

(** [request_map.find(host)]: append to the host's group, or open a new
    group (hosts kept in first-seen order). *)
Fixpoint group_add {X : Type} (host : string) (x : X) (m : list (string * list X))
  : list (string * list X) :=
  match m with
  | [] => [(host, [x])]
  | (h, xs) :: m' =>
      if String.eqb h host then (h, xs ++ [x]) :: m' else (h, xs) :: group_add host x m'
  end.

(** The first loop of [MGETRequest::create]: key [i] (from 1) is paired with
    its original index [i - 1]. *)
Fixpoint mget_collect (keys : list RespValue) (i : nat) (m : list (string * list (string * nat)))
  : list (string * list (string * nat)) :=
  match keys with
  | [] => m
  | k :: ks =>
      let key := asString k in
      mget_collect ks (S i) (group_add (getHost key) (key, i) m)
  end.

Definition mget_request_map (incoming : RespValue) : list (string * list (string * nat)) :=
  mget_collect (tl (asArray incoming)) 0 [].

(** The first loop of [MSETRequest::create] ([i += 2]). *)
Fixpoint mset_collect (rest : list RespValue) (i : nat)
  (m : list (string * list (string * string * nat))) : list (string * list (string * string * nat)) :=
  match rest with
  | k :: v :: rest' =>
      let key := asString k in
      mset_collect rest' (S (S i)) (group_add (getHost key) (key, asString v, i) m)
  | _ => m
  end.

Definition mset_request_map (incoming : RespValue) : list (string * list (string * string * nat)) :=
  mset_collect (tl (asArray incoming)) 0 [].

(** The collapsed request of one host, and its [response_indexes]. *)
Definition mget_fragment (key_index_pairs : list (string * nat)) : RespValue * list nat :=
  (RArray (RBulkString "MGET" :: map (fun ki => RBulkString ki.1) key_index_pairs),
   map snd key_index_pairs).

Definition mset_fragment (command_index_pairs : list (string * string * nat)) : RespValue * list nat :=
  (RArray (RBulkString "MSET" ::
             flat_map (fun kvi => [RBulkString kvi.1.1; RBulkString kvi.1.2]) command_index_pairs),
   map snd command_index_pairs).

(** MGET child response, [Integer]/[Null]/[SimpleString] branch. *)
Fixpoint mget_protocol_error (ids : list nat) (arr : list RespValue) (ec : nat)
  : list RespValue * nat :=
  match ids with
  | [] => (arr, ec)
  | i :: ids' =>
      mget_protocol_error ids'
        (<[i := with_string (set_type Error) "upstream protocol error"]> arr) (S ec)
  end.

(** MGET child response, [Error]/[BulkString] branch:
    [slot.type(value->type()); slot.asString().swap(value->asString());]
    [cur] is the current content of [value->asString()]. *)
Fixpoint mget_swap_loop (t : RespType) (ids : list nat) (cur : string)
  (arr : list RespValue) (ec : nat) : list RespValue * nat :=
  match ids with
  | [] => (arr, ec)
  | i :: ids' =>
      let slot := set_type t in
      mget_swap_loop t ids' (asString slot) (<[i := with_string slot cur]> arr) (S ec)
  end.

(** MGET child response, [Array] branch; [None] is [NOT_REACHED]. *)
Fixpoint mget_array_loop (ids : list nat) (vals : list RespValue) (arr : list RespValue)
  : option (list RespValue) :=
  match ids, vals with
  | [], _ => Some arr
  | i :: ids', nested :: vals' =>
      let slot := set_type (type_of nested) in
      match nested with
      | RNull => mget_array_loop ids' vals' (<[i := slot]> arr)
      | RBulkString s => mget_array_loop ids' vals' (<[i := with_string slot s]> arr)
      | _ => None
      end
  | _ :: _, [] => None
  end.

(** The [switch (value->type())] of [MGETRequest::onChildResponse]. *)
Definition mget_absorb (value : RespValue) (ids : list nat) (arr : list RespValue) (ec : nat)
  : option (list RespValue * nat) :=
  match value with
  | RInteger _ | RNull | RSimpleString _ => Some (mget_protocol_error ids arr ec)
  | RError s | RBulkString s => Some (mget_swap_loop (type_of value) ids s arr ec)
  | RArray vals =>
      if length ids =? length vals then
        match mget_array_loop ids vals arr with
        | Some arr' => Some (arr', ec)
        | None => None
        end
      else None
  end.

Definition MGETRequest_onChildResponse (value : RespValue) (index : nat) (ids : list nat)
  (s : FragState) : M FragState :=
  let s := set_pending_handle index None s in
  match pending_response s with
  | Some (RArray arr) =>
      match mget_absorb value ids arr (error_count s) with
      | None => abort
      | Some (arr', ec) =>
          assert (0 <? num_pending_responses s) ;;
          let n := pred (num_pending_responses s) in
          if n =? 0 then
            onResponse (RArray arr') ;; mret (mkFrag (pending_requests s) n ec None)
          else mret (mkFrag (pending_requests s) n ec (Some (RArray arr')))
      end
  | _ => abort
  end.

Definition mset_finished_error (ec : nat) : RespValue :=
  makeError ("finished with " ++ fmt_nat ec ++ " error(s)")%string.

Definition MSETRequest_onChildResponse (value : RespValue) (index : nat) (ids : list nat)
  (s : FragState) : M FragState :=
  let s := set_pending_handle index None s in
  let ec := match value with
            | RSimpleString v => if String.eqb v "OK" then error_count s
                                 else error_count s + length ids
            | _ => error_count s + length ids
            end in
  assert (0 <? num_pending_responses s) ;;
  let n := pred (num_pending_responses s) in
  if n =? 0 then
    if ec =? 0 then
      match pending_response s with
      | Some pr => onResponse (with_string pr "OK") ;; mret (mkFrag (pending_requests s) n ec None)
      | None => abort
      end
    else onResponse (mset_finished_error ec) ;;
         mret (mkFrag (pending_requests s) n ec (pending_response s))
  else mret (mkFrag (pending_requests s) n ec (pending_response s)).

(** [FragmentedRequest::onChildFailure] *)
Definition FragmentedRequest_onChildFailure
  (onChildResponse : RespValue -> nat -> list nat -> FragState -> M FragState)
  (index : nat) (ids : list nat) (s : FragState) : M FragState :=
  onChildResponse (makeError "upstream failure") index ids s.

(** The second loop of [MGETRequest::create] / [MSETRequest::create]: one
    fragment per host group, routed by its first key. [pending_requests_.back()]
    is the element at position [request_index]. A fragment without a handle
    gets [pending_request.onResponse(makeError("no upstream host"))], which is
    the parent's [onChildResponse] for that fragment. *)
Fixpoint submit_fragments {X : Type} (build : list X -> RespValue * list nat)
  (onChildResponse : RespValue -> nat -> list nat -> FragState -> M FragState)
  (groups : list (string * list X)) (request_index : nat) (s : FragState) : M FragState :=
  match groups with
  | [] => mret s
  | (_, xs) :: gs =>
      let frag := (build xs).1 in
      let ids := (build xs).2 in
      let s1 := mkFrag (pending_requests s ++ [mkPending request_index ids None])
                       (num_pending_responses s) (error_count s) (pending_response s) in
      handle ← conn_makeRequest (asString (nth 1 (asArray frag) RNull)) frag;
      let s2 := set_pending_handle request_index handle s1 in
      s3 ← match handle with
           | None => onChildResponse (makeError "no upstream host") request_index ids s2
           | Some _ => mret s2
           end;
      submit_fragments build onChildResponse gs (S request_index) s3
  end.

Definition MGETRequest_create (incoming : RespValue) : M (option SplitRequest) :=
  let request_map := mget_request_map incoming in
  let s0 := mkFrag [] (length request_map) 0
                   (Some (RArray (replicate (length (asArray incoming) - 1) RNull))) in
  s ← submit_fragments mget_fragment MGETRequest_onChildResponse
                       (iter_order _ request_map) 0 s0;
  mret (if 0 <? num_pending_responses s then Some (MGETRequest s) else None).

Definition MSETRequest_create (incoming : RespValue) : M (option SplitRequest) :=
  if negb ((length (asArray incoming) - 1) mod 2 =? 0) then
    SplitRequestBase_onWrongNumberOfArguments incoming ;; mret None
  else
    let request_map := mset_request_map incoming in
    let s0 := mkFrag [] (length request_map) 0 (Some (RSimpleString "")) in
    s ← submit_fragments mset_fragment MSETRequest_onChildResponse
                         (iter_order _ request_map) 0 s0;
    mret (if 0 <? num_pending_responses s then Some (MSETRequest s) else None).

(** [FragmentedRequest::cancel] *)
Fixpoint cancel_pending (ps : list PendingRequest) : M (list PendingRequest) :=
  match ps with
  | [] => mret []
  | p :: ps' =>
      p' ← match pr_handle p with
           | Some h => cancel_handle h ;; mret (set_handle None p)
           | None => mret p
           end;
      ps'' ← cancel_pending ps';
      mret (p' :: ps'')
  end.

Definition FragmentedRequest_cancel (s : FragState) : M FragState :=
  ps ← cancel_pending (pending_requests s);
  mret (mkFrag ps (num_pending_responses s) (error_count s) (pending_response s)).

(** [SplitRequest::cancel()] *)
Definition cancel (r : SplitRequest) : M SplitRequest :=
  match r with
  | SingleServerRequest handle => SingleServerRequest_cancel handle
  | MGETRequest s => s' ← FragmentedRequest_cancel s; mret (MGETRequest s')
  | MSETRequest s => s' ← FragmentedRequest_cancel s; mret (MSETRequest s')
  end.

(** ** Child callbacks delivered by the pool *)

Inductive ChildEvent := ChildResponse (v : RespValue) | ChildFailure.

(** [PendingRequest::onResponse] / [PendingRequest::onFailure] of the
    fragment at position [j]: forwarded to the parent with the fragment's
    [index_] and [response_indexes_]. *)
Definition fragment_event
  (onChildResponse : RespValue -> nat -> list nat -> FragState -> M FragState)
  (s : FragState) (j : nat) (e : ChildEvent) : M FragState :=
  match pending_requests s !! j with
  | None => abort
  | Some pr =>
      match e with
      | ChildResponse v => onChildResponse v (pr_index pr) (pr_response_indexes pr) s
      | ChildFailure =>
          FragmentedRequest_onChildFailure onChildResponse (pr_index pr) (pr_response_indexes pr) s
      end
  end.

Definition on_child (r : SplitRequest) (j : nat) (e : ChildEvent) : M SplitRequest :=
  match r with
  | SingleServerRequest _ =>
      match e with
      | ChildResponse v => SingleServerRequest_onResponse v
      | ChildFailure => SingleServerRequest_onFailure
      end
  | MGETRequest s => s' ← fragment_event MGETRequest_onChildResponse s j e; mret (MGETRequest s')
  | MSETRequest s => s' ← fragment_event MSETRequest_onChildResponse s j e; mret (MSETRequest s')
  end.

(** The pool's callbacks, in the order they arrive. *)
Fixpoint deliver (r : SplitRequest) (evs : list (nat * ChildEvent)) : M SplitRequest :=
  match evs with
  | [] => mret r
  | (j, e) :: evs' => r' ← on_child r j e; deliver r' evs'
  end.

(** Positions of the fragments whose handle is live. *)
Fixpoint live_from (ps : list PendingRequest) (k : nat) : list nat :=
  match ps with
  | [] => []
  | p :: ps' => (if pr_handle p then [k] else []) ++ live_from ps' (S k)
  end.

(** The handles a request still owns: the pool fires exactly one callback
    for each of them. *)
Definition live (r : SplitRequest) : list nat :=
  match r with
  | SingleServerRequest handle => if handle then [0] else []
  | MGETRequest s | MSETRequest s => live_from (pending_requests s) 0
  end.

(** ** InstanceImpl *)

(** [CommandHandlerFactory<RequestType>::startRequest] *)
Definition startRequest (h : Handler) (incoming : RespValue) : M (option SplitRequest) :=
  match h with
  | SimpleHandler => SimpleRequest_create incoming
  | EvalHandler => EvalRequest_create incoming
  | MGETHandler => MGETRequest_create incoming
  | MSETHandler => MSETRequest_create incoming
  end.

Definition InstanceImpl_onInvalidRequest : M (option SplitRequest) :=
  inc_invalid_request ;; onResponse (makeError "invalid request") ;; mret None.

Definition InstanceImpl_makeRequest (command_map : gmap string Handler) (request : RespValue)
  : M (option SplitRequest) :=
  match request with
  | RArray args =>
      if length args <? 2 then InstanceImpl_onInvalidRequest
      else if negb (forallb is_bulk_string args) then InstanceImpl_onInvalidRequest
      else
        let to_lower_string := to_lower (asString (nth 0 args RNull)) in
        match command_map !! to_lower_string with
        | None =>
            inc_unsupported_command ;;
            onResponse (makeError ("unsupported command '" ++ asString (nth 0 args RNull) ++ "'")%string) ;;
            mret None
        | Some h => inc_total to_lower_string ;; startRequest h request
        end
  | _ => InstanceImpl_onInvalidRequest
  end.


(** ** The caller's view of a request: creation, then the pool's callbacks *)

(** Two strings that differ only in the case of ASCII letters. *)
Definition ascii_upper (c : ascii) : ascii :=
  let n := nat_of_ascii c in
  if (97 <=? n) && (n <=? 122) then ascii_of_nat (n - 32) else c.

Fixpoint case_variant (s1 s2 : string) : Prop :=
  match s1, s2 with
  | EmptyString, EmptyString => True
  | String c1 s1', String c2 s2' =>
      (c2 = c1 \/ c2 = ascii_upper c1 \/ c2 = to_lower_char c1) /\ case_variant s1' s2'
  | _, _ => False
  end.

(** A request envelope the instance accepts: an array of at least two bulk
    strings. *)
Definition well_formed_command (args : list RespValue) : Prop :=
  2 <= length args /\ Forall (fun v => exists s, v = RBulkString s) args.

(** A request whose final response has not been delivered yet. *)
Definition pending_split (r : SplitRequest) : Prop :=
  match r with
  | SingleServerRequest handle => handle <> None
  | MGETRequest s | MSETRequest s => 0 < num_pending_responses s
  end.

(** The pool handles a request owns. *)
Definition owned_handles (r : SplitRequest) : list nat :=
  match r with
  | SingleServerRequest handle => match handle with Some h => [h] | None => [] end
  | MGETRequest s | MSETRequest s => omap pr_handle (pending_requests s)
  end.

(** The value a fragment's parent receives for a pool callback
    ([onChildFailure] forwards [Error("upstream failure")]). *)
Definition child_value (e : ChildEvent) : RespValue :=
  match e with
  | ChildResponse v => v
  | ChildFailure => makeError "upstream failure"
  end.

(** Every pending request sits at the position named by its [index_]. *)
Definition indices_ok (ps : list PendingRequest) : Prop :=
  forall j p, ps !! j = Some p -> pr_index p = j.

(** An MGET fragment reply the aggregation accepts: an array with one
    element per key of the fragment, each Null or a bulk string. *)
Definition mget_nested_ok (v : RespValue) : bool :=
  match v with RNull | RBulkString _ => true | _ => false end.

Definition mget_array_ok (ids : list nat) (l : list RespValue) : bool :=
  (length ids =? length l) && forallb mget_nested_ok l.

(** A run of the pool's callbacks in which some MGET fragment gets an
    array reply of the wrong shape (the fatal protocol violation). *)
Definition fatal_mget_reply (r : SplitRequest) (evs : list (nat * ChildEvent)) : Prop :=
  match r with
  | MGETRequest s =>
      exists j l p, In (j, ChildResponse (RArray l)) evs /\ pending_requests s !! j = Some p /\
                    mget_array_ok (pr_response_indexes p) l = false
  | _ => False
  end.

(** The registered command names are all lowercase. *)
Definition keys_lowercase (command_map : gmap string Handler) : Prop :=
  forall k h, command_map !! k = Some h -> to_lower k = k.

(** An MSET child response counted as a success. *)
Definition mset_value_ok (v : RespValue) : bool :=
  match v with RSimpleString s => String.eqb s "OK" | _ => false end.

(** The reply of a completed MSET from its error count and the pending
    SimpleString. *)
Definition mset_done (pr : RespValue) (ec : nat) : RespValue :=
  if ec =? 0 then with_string pr "OK" else mset_finished_error ec.

(** Error keys still to be counted: the keys of every fragment with a live
    handle whose reply [out j] is not "OK". *)
Fixpoint live_cost (out : nat -> ChildEvent) (ps : list PendingRequest) (k : nat) : nat :=
  match ps with
  | [] => 0
  | p :: ps' =>
      (match pr_handle p with
       | Some _ => if mset_value_ok (child_value (out k)) then 0 else length (pr_response_indexes p)
       | None => 0
       end) + live_cost out ps' (S k)
  end.

(** The fragments an MSET is split into, in submission order. *)
Definition mset_fragments (incoming : RespValue) : list (RespValue * list nat) :=
  map (fun g => mset_fragment g.2) (iter_order _ (mset_request_map incoming)).

(** The reply fragment [j] ends with: "no upstream host" when the pool
    gives no handle, the upstream's reply [out j] otherwise. *)
Definition fragment_reply (out : nat -> ChildEvent) (j : nat) (fr : RespValue * list nat) : RespValue :=
  match pool_make (asString (nth 1 (asArray fr.1) RNull)) fr.1 with
  | None => makeError "no upstream host"
  | Some _ => child_value (out j)
  end.

(** Number of keys in the fragments whose reply is not "OK". *)
Fixpoint mset_error_keys (out : nat -> ChildEvent) (k : nat) (frs : list (RespValue * list nat)) : nat :=
  match frs with
  | [] => 0
  | fr :: frs' =>
      (if mset_value_ok (fragment_reply out k fr) then 0 else length fr.2) +
      mset_error_keys out (S k) frs'
  end.

(** Every fragment's reply is "OK". *)
Fixpoint mset_all_ok (out : nat -> ChildEvent) (k : nat) (frs : list (RespValue * list nat)) : bool :=
  match frs with
  | [] => true
  | fr :: frs' => mset_value_ok (fragment_reply out k fr) && mset_all_ok out (S k) frs'
  end.

(** The pool's callbacks for the live fragments, in the order [order], the
    fragment at position [j] getting [out j]. *)
Definition events (out : nat -> ChildEvent) (order : list nat) : list (nat * ChildEvent) :=
  map (fun j => (j, out j)) order.

(** The count of responses a request delivers, as the request stands after
    creation: one if creation returned no request, otherwise one once all
    pool callbacks have fired (or the fatal MGET reply). *)
Definition single_response (o : Out) (res : option (option SplitRequest * Out))
  (out : nat -> ChildEvent) (order : list nat) : Prop :=
  match res with
  | None => False
  | Some (None, o1) => length (responses o1) = S (length (responses o))
  | Some (Some r, o1) =>
      length (responses o1) = length (responses o) /\
      (Permutation order (live r) ->
       match deliver r (events out order) o1 with
       | Some (_, o2) => length (responses o2) = S (length (responses o))
       | None => fatal_mget_reply r (events out order)
       end)
  end.

(** A pending MGET of two keys sent as one fragment. *)
Definition sample_state : FragState :=
  mkFrag [mkPending 0 [0; 1] (Some 4)] 1 0 (Some (RArray [RNull; RNull])).

(** A key of the MGET map: its host, and the argument it was read from. *)
Definition mget_key_ok (args : list RespValue) (host : string) (ki : string * nat) : Prop :=
  getHost ki.1 = host /\ exists a, args !! S ki.2 = Some a /\ asString a = ki.1.

(** A key-value pair of the MSET map: its host, and the arguments it was read from. *)
Definition mset_key_ok (args : list RespValue) (host : string) (kvi : string * string * nat) : Prop :=
  getHost kvi.1.1 = host /\
  exists a b, args !! S kvi.2 = Some a /\ args !! S (S kvi.2) = Some b /\
              asString a = kvi.1.1 /\ asString b = kvi.1.2.

(** A step that changes nothing of the output but the responses. *)
Definition only_responses (o o' : Out) : Prop :=
  upstream o' = upstream o /\ cancels o' = cancels o /\
  invalid_request o' = invalid_request o /\ unsupported_command o' = unsupported_command o /\
  command_totals o' = command_totals o.

(** The upstream request of a fragment: keyed by the fragment's first key. *)
Definition fragment_route (frag : RespValue) : string * RespValue :=
  (asString (nth 1 (asArray frag) RNull), frag).

(** An upstream that answers fragment [j] of the list [gs] from a
    key-value store: one element per key of the fragment, in the fragment's
    order. *)
Definition mget_store_event (store : string -> RespValue) (gs : list (string * list (string * nat)))
  (j : nat) : ChildEvent :=
  match gs !! j with
  | Some g => ChildResponse (RArray (map (fun ki => store ki.1) g.2))
  | None => ChildFailure
  end.

(** The MGET fragments in the order they are sent, answered from a store. *)
Definition mget_store_reply (store : string -> RespValue) (incoming : RespValue) : nat -> ChildEvent :=
  mget_store_event store (iter_order _ (mget_request_map incoming)).

(** The stored value of the key read from argument [i + 1]. *)
Definition mget_store_value (args : list RespValue) (store : string -> RespValue) (i : nat) : RespValue :=
  store (asString (nth (S i) args RNull)).

(** What an MGET request in flight keeps while a store answers its
    fragments: fragment [j] is group [j] of [gs], and a slot holds Null until
    its fragment has answered, the stored value after. *)
Definition mget_store_inv (args : list RespValue) (store : string -> RespValue)
  (gs : list (string * list (string * nat))) (s : FragState) : Prop :=
  length (pending_requests s) = length gs /\
  (forall j p, pending_requests s !! j = Some p -> exists g, gs !! j = Some g /\
     pr_index p = j /\ pr_response_indexes p = map snd g.2) /\
  num_pending_responses s = length (live_from (pending_requests s) 0) /\
  (0 < num_pending_responses s -> exists arr, pending_response s = Some (RArray arr) /\
     length arr = length args - 1 /\
     forall j p i, pending_requests s !! j = Some p -> i ∈ pr_response_indexes p ->
       arr !! i = Some (if pr_handle p then RNull else mget_store_value args store i)).

(** The handler registered first under a name that lowercases to [k]. *)
Fixpoint first_registration (k : string) (regs : list (string * Handler)) : option Handler :=
  match regs with
  | [] => None
  | (name, h) :: regs' => if String.eqb (to_lower name) k then Some h else first_registration k regs'
  end.

(** The [addHandler] calls of the [InstanceImpl] constructor, in order. *)
Definition registrations (simple_commands eval_commands : list string) : list (string * Handler) :=
  map (fun c => (c, SimpleHandler)) simple_commands ++ map (fun c => (c, EvalHandler)) eval_commands ++
  [("mget", MGETHandler); ("mset", MSETHandler)].

(** ** Proofs *)

(** The hash map's iteration visits every host group exactly once. *)
Hypothesis iter_order_perm : forall X (m : list (string * list X)), Permutation (iter_order X m) m.

Ltac unfold_M := unfold mbind, M_bind, mret, M_ret in *.

Lemma forallb_bulk_true (args : list RespValue) :
  Forall (fun v => exists s, v = RBulkString s) args -> forallb is_bulk_string args = true.
Proof.
  induction 1 as [|v args [s ->] _ IH]; [reflexivity|]. simpl. exact IH.
Qed.

Lemma forallb_bulk_false (args : list RespValue) :
  (exists v, In v args /\ forall s, v <> RBulkString s) -> forallb is_bulk_string args = false.
Proof.
  intros [v [Hin Hv]]. induction args as [|a args IH]; [destruct Hin|].
  simpl. destruct Hin as [-> | Hin].
  - destruct v; try reflexivity. exfalso. eapply Hv. reflexivity.
  - rewrite IH by exact Hin. apply andb_false_r.
Qed.

Lemma makeRequest_dispatch (command_map : gmap string Handler) (args : list RespValue) (o : Out) :
  well_formed_command args ->
  InstanceImpl_makeRequest command_map (RArray args) o =
  match command_map !! to_lower (asString (nth 0 args RNull)) with
  | None => Some (None, out_respond (out_unsupported o)
                          (RError ("unsupported command '" ++ asString (nth 0 args RNull) ++ "'")%string))
  | Some h => startRequest h (RArray args) (out_total o (to_lower (asString (nth 0 args RNull))))
  end.
Proof.
  intros [Hlen Hbulk]. unfold InstanceImpl_makeRequest.
  replace (length args <? 2) with false by (symmetry; apply Nat.ltb_ge; lia).
  rewrite (forallb_bulk_true _ Hbulk). simpl.
  destruct (command_map !! _); reflexivity.
Qed.

Lemma to_lower_char_upper (c : ascii) : to_lower_char (ascii_upper c) = to_lower_char c.
Proof. destruct c as [[] [] [] [] [] [] [] []]; reflexivity. Qed.

Lemma to_lower_char_idem (c : ascii) : to_lower_char (to_lower_char c) = to_lower_char c.
Proof. destruct c as [[] [] [] [] [] [] [] []]; reflexivity. Qed.

Lemma to_lower_idem (s : string) : to_lower (to_lower s) = to_lower s.
Proof. induction s as [|c s IH]; simpl; [reflexivity|]. by rewrite to_lower_char_idem, IH. Qed.

Lemma to_lower_case_variant (s1 s2 : string) : case_variant s1 s2 -> to_lower s1 = to_lower s2.
Proof.
  revert s2. induction s1 as [|c1 s1 IH]; intros [|c2 s2]; simpl; try tauto.
  intros [Hc Hs]. rewrite (IH s2 Hs). f_equal.
  destruct Hc as [-> | [-> | ->]].
  - reflexivity.
  - by rewrite to_lower_char_upper.
  - by rewrite to_lower_char_idem.
Qed.

Lemma addHandler_keys_lowercase name h command_map :
  keys_lowercase command_map -> keys_lowercase (InstanceImpl_addHandler name h command_map).
Proof.
  unfold InstanceImpl_addHandler. intros Hcm k h' Hk.
  destruct (command_map !! to_lower name) eqn:E; [exact (Hcm _ _ Hk)|].
  destruct (decide (k = to_lower name)) as [->|Hne].
  - apply to_lower_idem.
  - rewrite lookup_insert_ne in Hk by congruence. exact (Hcm _ _ Hk).
Qed.

Lemma foldl_addHandler_keys_lowercase names h command_map :
  keys_lowercase command_map ->
  keys_lowercase (foldl (fun cm c => InstanceImpl_addHandler c h cm) command_map names).
Proof.
  revert command_map. induction names as [|n names IH]; intros cm Hcm; simpl; [exact Hcm|].
  apply IH, addHandler_keys_lowercase, Hcm.
Qed.

Lemma command_map_keys_lowercase simple_commands eval_commands :
  keys_lowercase (InstanceImpl_command_map simple_commands eval_commands).
Proof.
  unfold InstanceImpl_command_map.
  apply addHandler_keys_lowercase, addHandler_keys_lowercase.
  apply foldl_addHandler_keys_lowercase, foldl_addHandler_keys_lowercase.
  intros k h Hk. rewrite lookup_empty in Hk. discriminate.
Qed.

(** C5: a request that is not an array, or is an array of fewer than two
    elements, or has an element that is not a bulk string, increments
    [invalid_request], receives [Error("invalid request")], gets no request
    object back, and sends nothing upstream (the output state differs from
    the input only by the counter and the response). *)
Theorem makeRequest_invalid_request (command_map : gmap string Handler) (request : RespValue) (o : Out) :
  ((forall args, request <> RArray args) \/
   (exists args, request = RArray args /\
      (length args < 2 \/ exists v, In v args /\ forall s, v <> RBulkString s))) ->
  InstanceImpl_makeRequest command_map request o =
    Some (None, out_respond (out_invalid o) (RError "invalid request")).
Proof.
  intros [Hnot | [args [-> Hargs]]].
  - destruct request; try reflexivity. exfalso. eapply Hnot. reflexivity.
  - unfold InstanceImpl_makeRequest. destruct (length args <? 2) eqn:Hl; [reflexivity|].
    apply Nat.ltb_ge in Hl. destruct Hargs as [Hlt | Hbad]; [lia|].
    rewrite (forallb_bulk_false _ Hbad). reflexivity.
Qed.

(** C6: the command map built at registration has only lower-cased keys;
    first arguments that differ only in ASCII letter case look up the same
    entry; a found entry's handler starts the request (after the per-command
    counter); a missing entry increments [unsupported_command] and answers
    [Error("unsupported command 'X'")] with X as the client sent it, with no
    request object and nothing sent upstream. *)
Theorem makeRequest_case_insensitive_dispatch (simple_commands eval_commands : list string) :
  let command_map := InstanceImpl_command_map simple_commands eval_commands in
  keys_lowercase command_map /\
  (forall a1 a2, case_variant a1 a2 -> command_map !! to_lower a1 = command_map !! to_lower a2) /\
  (forall args o h, well_formed_command args ->
     command_map !! to_lower (asString (nth 0 args RNull)) = Some h ->
     InstanceImpl_makeRequest command_map (RArray args) o =
       startRequest h (RArray args) (out_total o (to_lower (asString (nth 0 args RNull))))) /\
  (forall args o, well_formed_command args ->
     command_map !! to_lower (asString (nth 0 args RNull)) = None ->
     InstanceImpl_makeRequest command_map (RArray args) o =
       Some (None, out_respond (out_unsupported o)
                     (RError ("unsupported command '" ++ asString (nth 0 args RNull) ++ "'")%string))).
Proof.
  intros command_map. split; [apply command_map_keys_lowercase|]. split; [|split].
  - intros a1 a2 Hv. by rewrite (to_lower_case_variant a1 a2 Hv).
  - intros args o h Hwf Hh. rewrite makeRequest_dispatch by exact Hwf. by rewrite Hh.
  - intros args o Hwf Hh. rewrite makeRequest_dispatch by exact Hwf. by rewrite Hh.
Qed.

(** C7: EVAL with fewer than four elements and MSET with an odd number of
    arguments after the command name answer
    [Error("wrong number of arguments for 'X' command")] (X as sent), return
    no request object and send nothing upstream; an EVAL with at least four
    elements sends one upstream request, the whole incoming array, routed by
    its fourth element. *)
Theorem eval_mset_wrong_number_of_arguments :
  (forall args o, length args < 4 ->
     startRequest EvalHandler (RArray args) o =
       Some (None, out_respond o (RError ("wrong number of arguments for '" ++
                                   asString (nth 0 args RNull) ++ "' command")%string))) /\
  (forall args o, (length args - 1) mod 2 <> 0 ->
     startRequest MSETHandler (RArray args) o =
       Some (None, out_respond o (RError ("wrong number of arguments for '" ++
                                   asString (nth 0 args RNull) ++ "' command")%string))) /\
  (forall args o, 4 <= length args ->
     let key := asString (nth 3 args RNull) in
     startRequest EvalHandler (RArray args) o =
       match pool_make key (RArray args) with
       | Some h => Some (Some (SingleServerRequest (Some h)), out_upstream o key (RArray args))
       | None => Some (None, out_respond (out_upstream o key (RArray args)) (RError "no upstream host"))
       end).
Proof.
  split; [|split].
  - intros args o Hlt. simpl. unfold EvalRequest_create. simpl.
    replace (length args <? 4) with true by (symmetry; apply Nat.ltb_lt; exact Hlt). reflexivity.
  - intros args o Hodd. unfold startRequest, MSETRequest_create. cbn [asArray].
    destruct ((length args - 1) mod 2 =? 0) eqn:E; [apply Nat.eqb_eq in E; contradiction|].
    reflexivity.
  - intros args o Hge key. simpl. unfold EvalRequest_create. simpl.
    replace (length args <? 4) with false by (symmetry; apply Nat.ltb_ge; exact Hge).
    unfold_M. unfold conn_makeRequest. fold key. destruct (pool_make key (RArray args)); reflexivity.
Qed.

(** *** One child response of a fragmented request *)

Lemma mget_step v index ids s o arr arr' ec' :
  pending_response s = Some (RArray arr) -> 0 < num_pending_responses s ->
  mget_absorb v ids arr (error_count s) = Some (arr', ec') ->
  MGETRequest_onChildResponse v index ids s o =
    Some (mkFrag (alter (set_handle None) index (pending_requests s))
                 (pred (num_pending_responses s)) ec'
                 (if pred (num_pending_responses s) =? 0 then None else Some (RArray arr')),
          if pred (num_pending_responses s) =? 0 then out_respond o (RArray arr') else o).
Proof.
  intros Hpr Hn Habs. unfold MGETRequest_onChildResponse, set_pending_handle. simpl.
  rewrite Hpr, Habs. unfold assert.
  replace (0 <? num_pending_responses s) with true by (symmetry; apply Nat.ltb_lt; exact Hn).
  unfold_M. destruct (pred (num_pending_responses s) =? 0); reflexivity.
Qed.

Lemma mget_step_abort v index ids s o arr :
  pending_response s = Some (RArray arr) ->
  mget_absorb v ids arr (error_count s) = None ->
  MGETRequest_onChildResponse v index ids s o = None.
Proof.
  intros Hpr Habs. unfold MGETRequest_onChildResponse, set_pending_handle. simpl.
  by rewrite Hpr, Habs.
Qed.

Lemma mset_step v index ids s o pr :
  pending_response s = Some pr -> 0 < num_pending_responses s ->
  let ec' := if mset_value_ok v then error_count s else error_count s + length ids in
  let n := pred (num_pending_responses s) in
  MSETRequest_onChildResponse v index ids s o =
    Some (mkFrag (alter (set_handle None) index (pending_requests s)) n ec'
                 (if (n =? 0) && (ec' =? 0) then None else Some pr),
          if n =? 0 then out_respond o (if ec' =? 0 then with_string pr "OK" else mset_finished_error ec')
          else o).
Proof.
  intros Hpr Hn ec' n. unfold MSETRequest_onChildResponse, set_pending_handle. simpl.
  unfold assert.
  replace (0 <? num_pending_responses s) with true by (symmetry; apply Nat.ltb_lt; exact Hn).
  assert (Hec : match v with
                | RSimpleString v0 => if String.eqb v0 "OK" then error_count s
                                      else error_count s + length ids
                | _ => error_count s + length ids
                end = ec') by (subst ec'; destruct v; reflexivity).
  rewrite Hec. fold n. unfold_M.
  destruct (n =? 0); [|by rewrite Hpr]. simpl. destruct (ec' =? 0); [|by rewrite Hpr].
  rewrite Hpr. reflexivity.
Qed.

(** *** Slot updates of [MGETRequest::onChildResponse] *)

Lemma mget_protocol_error_spec ids arr ec :
  (mget_protocol_error ids arr ec).2 = ec + length ids /\
  length (mget_protocol_error ids arr ec).1 = length arr /\
  (forall j, j ∈ ids -> j < length arr ->
     (mget_protocol_error ids arr ec).1 !! j = Some (RError "upstream protocol error")) /\
  (forall j, j ∉ ids -> (mget_protocol_error ids arr ec).1 !! j = arr !! j).
Proof.
  revert arr ec. induction ids as [|i ids IH]; intros arr ec; simpl.
  - split; [lia|]. split; [reflexivity|]. split; [|reflexivity].
    intros j Hj. inversion Hj.
  - destruct (IH (<[i:=RError "upstream protocol error"]> arr) (S ec)) as (H1 & H2 & H3 & H4).
    rewrite length_insert in H2, H3.
    split; [rewrite H1; simpl; lia|]. split; [exact H2|]. split.
    + intros j Hj Hlt. destruct (decide (j ∈ ids)) as [Hin|Hnin]; [by apply H3|].
      rewrite H4 by exact Hnin. apply elem_of_cons in Hj as [->|Hj]; [|contradiction].
      by apply list_lookup_insert_eq.
    + intros j Hj. apply not_elem_of_cons in Hj as [Hji Hj].
      rewrite H4 by exact Hj. by apply list_lookup_insert_ne.
Qed.

Lemma with_string_set_type_type t cur : type_of (with_string (set_type t) cur) = t.
Proof. destruct t; reflexivity. Qed.

Lemma mget_swap_loop_spec t ids cur arr ec :
  (mget_swap_loop t ids cur arr ec).2 = ec + length ids /\
  length (mget_swap_loop t ids cur arr ec).1 = length arr /\
  (forall j, j ∈ ids -> j < length arr ->
     exists x, (mget_swap_loop t ids cur arr ec).1 !! j = Some x /\ type_of x = t) /\
  (forall j, j ∉ ids -> (mget_swap_loop t ids cur arr ec).1 !! j = arr !! j).
Proof.
  revert cur arr ec. induction ids as [|i ids IH]; intros cur arr ec; simpl.
  - split; [lia|]. split; [reflexivity|]. split; [|reflexivity].
    intros j Hj. inversion Hj.
  - destruct (IH (asString (set_type t)) (<[i:=with_string (set_type t) cur]> arr) (S ec))
      as (H1 & H2 & H3 & H4).
    rewrite length_insert in H2, H3.
    split; [rewrite H1; simpl; lia|]. split; [exact H2|]. split.
    + intros j Hj Hlt. destruct (decide (j ∈ ids)) as [Hin|Hnin]; [by apply H3|].
      rewrite H4 by exact Hnin. apply elem_of_cons in Hj as [->|Hj]; [|contradiction].
      exists (with_string (set_type t) cur). split; [by apply list_lookup_insert_eq|].
      apply with_string_set_type_type.
    + intros j Hj. apply not_elem_of_cons in Hj as [Hji Hj].
      rewrite H4 by exact Hj. by apply list_lookup_insert_ne.
Qed.

(** C8: an MGET child response of type Integer, Null or SimpleString sets
    every slot of the fragment to [Error("upstream protocol error")], adds one
    to [error_count] per slot, leaves every other slot as it was, and counts
    the fragment as answered; the slot array is either kept pending or, for
    the last fragment, delivered. *)
Theorem mget_protocol_error_slots v index ids s o arr :
  (type_of v = Integer \/ type_of v = Null \/ type_of v = SimpleString) ->
  pending_response s = Some (RArray arr) -> 0 < num_pending_responses s ->
  exists s' o' arr',
    MGETRequest_onChildResponse v index ids s o = Some (s', o') /\
    error_count s' = error_count s + length ids /\
    num_pending_responses s' = pred (num_pending_responses s) /\
    length arr' = length arr /\
    (forall j, j ∈ ids -> j < length arr -> arr' !! j = Some (RError "upstream protocol error")) /\
    (forall j, j ∉ ids -> arr' !! j = arr !! j) /\
    ((pending_response s' = Some (RArray arr') /\ o' = o) \/
     (pending_response s' = None /\ o' = out_respond o (RArray arr'))).
Proof.
  intros Hty Hpr Hn.
  assert (Habs : mget_absorb v ids arr (error_count s) =
                 Some (mget_protocol_error ids arr (error_count s)))
    by (destruct v; simpl in Hty; destruct Hty as [H|[H|H]]; try discriminate; reflexivity).
  destruct (mget_protocol_error ids arr (error_count s)) as [arr' ec'] eqn:E.
  pose proof (mget_protocol_error_spec ids arr (error_count s)) as (H1 & H2 & H3 & H4).
  rewrite E in H1, H2, H3, H4. simpl in H1, H2, H3, H4.
  rewrite (mget_step v index ids s o arr arr' ec' Hpr Hn Habs).
  eexists _, _, arr'. split; [reflexivity|]. simpl.
  split; [exact H1|]. split; [reflexivity|]. split; [exact H2|]. split; [exact H3|].
  split; [exact H4|].
  destruct (pred (num_pending_responses s) =? 0); [right|left]; split; reflexivity.
Qed.

(** C10: for MGET and MSET a transport failure of a fragment is handled
    exactly as an upstream child response [Error("upstream failure")]: the
    fragment's handle is cleared, [num_pending_responses] goes down by one,
    [error_count] grows by the fragment's key count, for MGET every slot of
    the fragment becomes an Error (other slots unchanged), and the aggregated
    reply is delivered when it was the last pending fragment. *)
Theorem child_failure_is_upstream_failure_error :
  (forall s j o, on_child (MGETRequest s) j ChildFailure o =
                 on_child (MGETRequest s) j (ChildResponse (RError "upstream failure")) o) /\
  (forall s j o, on_child (MSETRequest s) j ChildFailure o =
                 on_child (MSETRequest s) j (ChildResponse (RError "upstream failure")) o) /\
  (forall s j o p arr, pending_requests s !! j = Some p ->
     pending_response s = Some (RArray arr) -> 0 < num_pending_responses s ->
     let ids := pr_response_indexes p in
     exists s' o' arr',
       on_child (MGETRequest s) j ChildFailure o = Some (MGETRequest s', o') /\
       pending_requests s' = alter (set_handle None) (pr_index p) (pending_requests s) /\
       num_pending_responses s' = pred (num_pending_responses s) /\
       error_count s' = error_count s + length ids /\
       (forall i, i ∈ ids -> i < length arr -> exists e, arr' !! i = Some (RError e)) /\
       (forall i, i ∉ ids -> arr' !! i = arr !! i) /\
       (if pred (num_pending_responses s) =? 0
        then pending_response s' = None /\ o' = out_respond o (RArray arr')
        else pending_response s' = Some (RArray arr') /\ o' = o)) /\
  (forall s j o p pr, pending_requests s !! j = Some p ->
     pending_response s = Some pr -> 0 < num_pending_responses s ->
     let ec' := error_count s + length (pr_response_indexes p) in
     exists s',
       on_child (MSETRequest s) j ChildFailure o =
         Some (MSETRequest s',
               if pred (num_pending_responses s) =? 0
               then out_respond o (if ec' =? 0 then with_string pr "OK" else mset_finished_error ec')
               else o) /\
       pending_requests s' = alter (set_handle None) (pr_index p) (pending_requests s) /\
       num_pending_responses s' = pred (num_pending_responses s) /\
       error_count s' = ec').
Proof.
  split; [|split; [|split]].
  - intros s j o. reflexivity.
  - intros s j o. reflexivity.
  - intros s j o p arr Hp Hpr Hn ids.
    destruct (mget_swap_loop Error ids "upstream failure" arr (error_count s)) as [arr' ec'] eqn:E.
    pose proof (mget_swap_loop_spec Error ids "upstream failure" arr (error_count s))
      as (H1 & H2 & H3 & H4).
    rewrite E in H1, H2, H3, H4. simpl in H1, H2, H3, H4.
    assert (Habs : mget_absorb (RError "upstream failure") ids arr (error_count s) = Some (arr', ec'))
      by (simpl; rewrite E; reflexivity).
    simpl. unfold fragment_event. rewrite Hp. unfold FragmentedRequest_onChildFailure, makeError.
    unfold_M. rewrite (mget_step _ _ _ s o arr arr' ec' Hpr Hn Habs).
    eexists _, _, arr'. split; [reflexivity|]. simpl.
    split; [reflexivity|]. split; [reflexivity|]. split; [exact H1|].
    split.
    + intros i Hi Hlt. destruct (H3 i Hi Hlt) as [x [Hx Ht]].
      destruct x; try discriminate. eauto.
    + split; [exact H4|]. destruct (pred (num_pending_responses s) =? 0); split; reflexivity.
  - intros s j o p pr Hp Hpr Hn ec'.
    simpl. unfold fragment_event. rewrite Hp. unfold FragmentedRequest_onChildFailure, makeError.
    unfold_M. rewrite (mset_step _ _ _ s o pr Hpr Hn). simpl.
    eexists. split; [reflexivity|]. simpl. split; [reflexivity|]. split; reflexivity.
Qed.

(** *** Cancellation *)

Lemma foldl_out_cancel_spec (hs : list nat) (o : Out) :
  responses (foldl out_cancel o hs) = responses o /\
  upstream (foldl out_cancel o hs) = upstream o /\
  cancels (foldl out_cancel o hs) = cancels o ++ hs.
Proof.
  revert o. induction hs as [|h hs IH]; intros o; simpl.
  - by rewrite app_nil_r.
  - destruct (IH (out_cancel o h)) as (H1 & H2 & H3). rewrite H1, H2, H3. simpl.
    by rewrite <- app_assoc.
Qed.

Lemma cancel_pending_spec (ps : list PendingRequest) (o : Out) :
  cancel_pending ps o = Some (map (set_handle None) ps, foldl out_cancel o (omap pr_handle ps)).
Proof.
  revert o. induction ps as [|[i ids [h|]] ps IH]; intros o; simpl; unfold_M.
  - reflexivity.
  - unfold cancel_handle. rewrite IH. reflexivity.
  - rewrite IH. reflexivity.
Qed.

Lemma live_from_cleared (ps : list PendingRequest) (k : nat) :
  live_from (map (set_handle None) ps) k = [].
Proof. revert k. induction ps as [|p ps IH]; intros k; simpl; [reflexivity|]. apply IH. Qed.

Lemma omap_handles_cleared (ps : list PendingRequest) :
  omap pr_handle (map (set_handle None) ps) = [].
Proof. induction ps as [|p ps IH]; simpl; [reflexivity|]. exact IH. Qed.

Lemma deliver_nil r o : deliver r [] o = Some (r, o).
Proof. reflexivity. Qed.

(** C9: cancelling a pending request cancels every live pool handle it owns
    (in order), clears them all, delivers no response and sends nothing
    upstream; afterwards the request owns no live handle, so the pool fires
    no further callback and no response is ever delivered for it. *)
Theorem cancel_releases_handles (r : SplitRequest) (o : Out) :
  pending_split r ->
  exists r' o',
    cancel r o = Some (r', o') /\
    cancels o' = cancels o ++ owned_handles r /\
    responses o' = responses o /\
    upstream o' = upstream o /\
    owned_handles r' = [] /\
    live r' = [] /\
    (forall evs, Permutation (map fst evs) (live r') -> deliver r' evs o' = Some (r', o')).
Proof.
  intros Hpend.
  assert (Hnil : forall r' o', live r' = [] ->
            forall evs, Permutation (map fst evs) (live r') -> deliver r' evs o' = Some (r', o')).
  { intros r' o' Hl evs Hp. rewrite Hl in Hp. symmetry in Hp. apply Permutation_nil in Hp.
    destruct evs; [reflexivity|discriminate]. }
  destruct r as [handle|s|s]; simpl in Hpend.
  - destruct handle as [h|]; [|contradiction].
    exists (SingleServerRequest None), (out_cancel o h).
    split; [reflexivity|]. simpl. split; [reflexivity|]. split; [reflexivity|].
    split; [reflexivity|]. split; [reflexivity|]. split; [reflexivity|].
    intros evs Hp. exact (Hnil (SingleServerRequest None) _ eq_refl evs Hp).
  - pose proof (foldl_out_cancel_spec (omap pr_handle (pending_requests s)) o) as (H1 & H2 & H3).
    eexists _, _. split.
    { simpl. unfold FragmentedRequest_cancel. unfold_M. rewrite cancel_pending_spec. reflexivity. }
    simpl. split; [exact H3|]. split; [exact H1|]. split; [exact H2|].
    split; [apply omap_handles_cleared|]. split; [apply live_from_cleared|].
    intros evs Hp. apply Hnil; [apply live_from_cleared|exact Hp].
  - pose proof (foldl_out_cancel_spec (omap pr_handle (pending_requests s)) o) as (H1 & H2 & H3).
    eexists _, _. split.
    { simpl. unfold FragmentedRequest_cancel. unfold_M. rewrite cancel_pending_spec. reflexivity. }
    simpl. split; [exact H3|]. split; [exact H1|]. split; [exact H2|].
    split; [apply omap_handles_cleared|]. split; [apply live_from_cleared|].
    intros evs Hp. apply Hnil; [apply live_from_cleared|exact Hp].
Qed.

(** *** Live handles *)

Lemma live_from_app (ps : list PendingRequest) (p : PendingRequest) (k : nat) :
  live_from (ps ++ [p]) k = live_from ps k ++ (if pr_handle p then [k + length ps] else []).
Proof.
  revert k. induction ps as [|q ps IH]; intros k; simpl.
  - rewrite Nat.add_0_r. destruct (pr_handle p); reflexivity.
  - rewrite IH, <- app_assoc.
    replace (k + S (length ps)) with (S k + length ps) by lia. reflexivity.
Qed.

Lemma elem_of_live_from (ps : list PendingRequest) (k j : nat) :
  j ∈ live_from ps k -> k <= j /\ exists p h, ps !! (j - k) = Some p /\ pr_handle p = Some h.
Proof.
  revert k. induction ps as [|q ps IH]; intros k Hj; simpl in Hj.
  - inversion Hj.
  - apply elem_of_app in Hj as [Hj|Hj].
    + destruct (pr_handle q) as [h|] eqn:Hq; [|inversion Hj].
      apply list_elem_of_singleton in Hj as ->. split; [lia|].
      rewrite Nat.sub_diag. exists q, h. split; [reflexivity|exact Hq].
    + destruct (IH (S k) Hj) as [Hle [p [h [Hp Hh]]]]. split; [lia|].
      exists p, h. split; [|exact Hh].
      replace (j - k) with (S (j - S k)) by lia. exact Hp.
Qed.

Lemma live_from_clear (ps : list PendingRequest) (k i : nat) (p : PendingRequest) (h : nat) :
  ps !! i = Some p -> pr_handle p = Some h ->
  Permutation (live_from ps k) ((k + i) :: live_from (alter (set_handle None) i ps) k).
Proof.
  revert k i. induction ps as [|q ps IH]; intros k i Hp Hh; [discriminate|].
  destruct i as [|i]; simpl in Hp |- *.
  - injection Hp as ->. rewrite Hh, Nat.add_0_r. reflexivity.
  - rewrite (IH (S k) i Hp Hh). replace (k + S i) with (S k + i) by lia.
    symmetry. apply Permutation_middle.
Qed.

Lemma live_from_alter_none (ps : list PendingRequest) (k i : nat) :
  (forall p, ps !! i = Some p -> pr_handle p = None) ->
  live_from (alter (set_handle None) i ps) k = live_from ps k.
Proof.
  revert k i. induction ps as [|q ps IH]; intros k i Hi; [reflexivity|].
  destruct i as [|i]; simpl.
  - by rewrite (Hi q eq_refl).
  - f_equal. apply IH. exact Hi.
Qed.

Lemma alter_last {A} (f : A -> A) (l : list A) (x : A) :
  alter f (length l) (l ++ [x]) = l ++ [f x].
Proof. induction l as [|y l IH]; simpl; [reflexivity|]. f_equal. exact IH. Qed.

Lemma lookup_alter_set_handle (ps : list PendingRequest) h i j p :
  alter (set_handle h) i ps !! j = Some p ->
  exists p0, ps !! j = Some p0 /\ pr_index p = pr_index p0 /\
             pr_response_indexes p = pr_response_indexes p0.
Proof.
  destruct (decide (i = j)) as [->|Hne].
  - rewrite list_lookup_alter_eq. destruct (ps !! j) as [p0|]; simpl; [|discriminate].
    intros [= <-]. exists p0. split; [reflexivity|]. split; reflexivity.
  - rewrite list_lookup_alter_ne by exact Hne. intros Hp. exists p. auto.
Qed.

Lemma indices_ok_alter (ps : list PendingRequest) h i :
  indices_ok ps -> indices_ok (alter (set_handle h) i ps).
Proof.
  intros Hok j p Hp. destruct (lookup_alter_set_handle ps h i j p Hp) as [p0 [Hp0 [Hi _]]].
  rewrite Hi. exact (Hok _ _ Hp0).
Qed.

Lemma indices_ok_snoc (ps : list PendingRequest) ids h :
  indices_ok ps -> indices_ok (ps ++ [mkPending (length ps) ids h]).
Proof.
  intros Hok j p Hp. apply lookup_app_Some in Hp as [Hp|[Hge Hp]]; [exact (Hok _ _ Hp)|].
  apply list_lookup_singleton_Some in Hp as [Hj <-]. simpl. lia.
Qed.

Lemma deliver_cons r j e evs o :
  deliver r ((j, e) :: evs) o =
  match on_child r j e o with Some (r', o') => deliver r' evs o' | None => None end.
Proof. reflexivity. Qed.

Lemma fragment_event_lookup child s j e p :
  pending_requests s !! j = Some p ->
  fragment_event child s j e = child (child_value e) (pr_index p) (pr_response_indexes p) s.
Proof. intros Hp. unfold fragment_event. rewrite Hp. by destruct e. Qed.

(** *** MGET: one response per request, or the fatal protocol violation *)

Lemma mget_array_loop_none ids l arr :
  length ids = length l -> mget_array_loop ids l arr = None -> forallb mget_nested_ok l = false.
Proof.
  revert l arr. induction ids as [|i ids IH]; intros [|x l] arr Hlen Hloop; simpl in *;
    try discriminate; try lia.
  destruct x; simpl; try reflexivity; eapply IH; eauto.
Qed.

Lemma mget_absorb_none v ids arr ec :
  mget_absorb v ids arr ec = None -> exists l, v = RArray l /\ mget_array_ok ids l = false.
Proof.
  destruct v as [| | | | |l]; simpl; try discriminate. intros Habs. exists l. split; [reflexivity|].
  unfold mget_array_ok. destruct (length ids =? length l) eqn:E; [|reflexivity].
  destruct (mget_array_loop ids l arr) eqn:Hl; [discriminate|].
  apply Nat.eqb_eq in E. simpl. exact (mget_array_loop_none ids l arr E Hl).
Qed.

Lemma perm_live_head (ps : list PendingRequest) (j : nat) (rest : list nat) :
  Permutation (j :: rest) (live_from ps 0) ->
  exists p h, ps !! j = Some p /\ pr_handle p = Some h /\
    Permutation rest (live_from (alter (set_handle None) j ps) 0).
Proof.
  intros Hperm.
  assert (Hj : j ∈ live_from ps 0).
  { apply (Permutation_in j) in Hperm; [|left; reflexivity]. by apply list_elem_of_In. }
  destruct (elem_of_live_from ps 0 j Hj) as [_ [p [h [Hp Hh]]]].
  rewrite Nat.sub_0_r in Hp. exists p, h. split; [exact Hp|]. split; [exact Hh|].
  apply (Permutation_cons_inv (a := j)). rewrite Hperm.
  exact (live_from_clear ps 0 j p h Hp Hh).
Qed.

Lemma mget_deliver (s : FragState) (o : Out) (evs : list (nat * ChildEvent)) :
  indices_ok (pending_requests s) ->
  num_pending_responses s = length (live_from (pending_requests s) 0) ->
  (0 < num_pending_responses s -> exists arr, pending_response s = Some (RArray arr)) ->
  Permutation (map fst evs) (live_from (pending_requests s) 0) ->
  match deliver (MGETRequest s) evs o with
  | Some (_, o') =>
      length (responses o') = length (responses o) + (if num_pending_responses s =? 0 then 0 else 1)
  | None => fatal_mget_reply (MGETRequest s) evs
  end.
Proof.
  revert s o. induction evs as [|[j e] evs IH]; intros s o Hidx Hn Hpr Hperm.
  - simpl in Hperm. apply Permutation_nil in Hperm.
    rewrite Hperm in Hn. simpl in Hn. rewrite Hn. simpl. lia.
  - simpl in Hperm. destruct (perm_live_head _ j _ Hperm) as [p [h [Hp [Hh Hrest]]]].
    pose proof (live_from_clear _ 0 j p h Hp Hh) as Hlive.
    pose proof (Permutation_length Hlive) as Hlen. simpl in Hlen.
    assert (Hpos : 0 < num_pending_responses s) by lia.
    destruct (Hpr Hpos) as [arr Harr].
    rewrite deliver_cons. unfold on_child. unfold_M.
    rewrite (fragment_event_lookup _ s j e p Hp). rewrite (Hidx j p Hp).
    destruct (mget_absorb (child_value e) (pr_response_indexes p) arr (error_count s))
      as [[arr' ec']|] eqn:Habs.
    + rewrite (mget_step _ _ _ s o arr arr' ec' Harr Hpos Habs).
      set (s' := mkFrag (alter (set_handle None) j (pending_requests s))
                        (pred (num_pending_responses s)) ec'
                        (if pred (num_pending_responses s) =? 0 then None else Some (RArray arr'))).
      set (o' := if pred (num_pending_responses s) =? 0 then out_respond o (RArray arr') else o).
      specialize (IH s' o').
      assert (Hidx' : indices_ok (pending_requests s')) by (apply indices_ok_alter, Hidx).
      assert (Hn' : num_pending_responses s' = length (live_from (pending_requests s') 0))
        by (simpl; lia).
      assert (Hpr' : 0 < num_pending_responses s' ->
                     exists arr0, pending_response s' = Some (RArray arr0)).
      { simpl. intros Hlt. destruct (pred (num_pending_responses s) =? 0) eqn:E.
        - apply Nat.eqb_eq in E. lia.
        - eauto. }
      specialize (IH Hidx' Hn' Hpr' Hrest).
      destruct (deliver (MGETRequest s') evs o') as [[r2 o2]|].
      * rewrite IH. replace (num_pending_responses s =? 0) with false
          by (symmetry; apply Nat.eqb_neq; lia).
        subst o' s'. simpl.
        destruct (pred (num_pending_responses s) =? 0); simpl;
          [rewrite length_app; simpl; lia | lia].
      * destruct IH as [j' [l [p' [Hin [Hp' Hok]]]]].
        destruct (lookup_alter_set_handle _ None j j' p' Hp') as [p0 [Hp0 [_ Hids]]].
        exists j', l, p0. split; [right; exact Hin|]. split; [exact Hp0|]. by rewrite <- Hids.
    + rewrite (mget_step_abort _ _ _ s o arr Harr Habs).
      destruct (mget_absorb_none _ _ _ _ Habs) as [l [Hv Hok]].
      destruct e as [v|]; simpl in Hv; [|discriminate]. subst v.
      exists j, l, p. split; [left; reflexivity|]. split; [exact Hp|exact Hok].
Qed.

(** *** Creation of the fragments *)

Section SubmitFragments.

Context {X : Type} (build : list X -> RespValue * list nat)
        (child : RespValue -> nat -> list nat -> FragState -> M FragState)
        (Shape : option RespValue -> Prop).

(** The synthesized "no upstream host" child response counts one fragment
    as answered and delivers a response exactly when it was the last one. *)
Hypothesis child_no_upstream : forall s o index ids,
  Shape (pending_response s) -> 0 < num_pending_responses s ->
  exists s' o', child (makeError "no upstream host") index ids s o = Some (s', o') /\
    pending_requests s' = alter (set_handle None) index (pending_requests s) /\
    num_pending_responses s' = pred (num_pending_responses s) /\
    (0 < num_pending_responses s' -> Shape (pending_response s')) /\
    length (responses o') =
      length (responses o) + (if num_pending_responses s' =? 0 then 1 else 0).

Lemma submit_fragments_once (gs : list (string * list X)) (s : FragState) (o : Out) :
  indices_ok (pending_requests s) ->
  num_pending_responses s = length (live_from (pending_requests s) 0) + length gs ->
  (0 < num_pending_responses s -> Shape (pending_response s)) ->
  exists s' o',
    submit_fragments build child gs (length (pending_requests s)) s o = Some (s', o') /\
    indices_ok (pending_requests s') /\
    num_pending_responses s' = length (live_from (pending_requests s') 0) /\
    (0 < num_pending_responses s' -> Shape (pending_response s')) /\
    length (responses o') = length (responses o) +
      (if num_pending_responses s =? 0 then 0
       else if num_pending_responses s' =? 0 then 1 else 0).
Proof.
  revert s o. induction gs as [|[host xs] gs IH]; intros s o Hidx Hn Hsh.
  - exists s, o. split; [reflexivity|]. split; [exact Hidx|]. simpl in Hn.
    split; [lia|]. split; [exact Hsh|].
    destruct (num_pending_responses s =? 0); lia.
  - cbn [submit_fragments]. unfold_M. unfold conn_makeRequest.
    set (ids := (build xs).2). set (frag := (build xs).1).
    set (handle := pool_make (asString (nth 1 (asArray frag) RNull)) frag).
    set (o1 := out_upstream o (asString (nth 1 (asArray frag) RNull)) frag).
    set (ps2 := pending_requests s ++ [mkPending (length (pending_requests s)) ids handle]).
    set (s2 := mkFrag ps2 (num_pending_responses s) (error_count s) (pending_response s)).
    assert (Hs2 : set_pending_handle (length (pending_requests s)) handle
                    (mkFrag (pending_requests s ++ [mkPending (length (pending_requests s)) ids None])
                            (num_pending_responses s) (error_count s) (pending_response s)) = s2).
    { unfold set_pending_handle. simpl. rewrite alter_last. reflexivity. }
    rewrite Hs2.
    assert (Hidx2 : indices_ok ps2) by (apply indices_ok_snoc, Hidx).
    assert (Hlen2 : length ps2 = S (length (pending_requests s)))
      by (subst ps2; rewrite length_app; simpl; lia).
    assert (Hresp1 : responses o1 = responses o) by reflexivity.
    simpl in Hn.
    destruct handle as [h|] eqn:Hh.
    + specialize (IH s2 o1 Hidx2).
      assert (Hn2 : num_pending_responses s2 = length (live_from (pending_requests s2) 0) + length gs).
      { simpl. subst ps2. rewrite live_from_app. simpl. rewrite length_app. simpl. lia. }
      destruct (IH Hn2 Hsh) as [s' [o' [Hrun [Hidx' [Hn' [Hsh' Hresp]]]]]].
      simpl in Hrun. rewrite Hlen2 in Hrun.
      exists s', o'. split; [exact Hrun|]. split; [exact Hidx'|]. split; [exact Hn'|].
      split; [exact Hsh'|]. rewrite Hresp, Hresp1. simpl. reflexivity.
    + assert (Hpos : 0 < num_pending_responses s2) by (simpl; lia).
      destruct (child_no_upstream s2 o1 (length (pending_requests s)) ids (Hsh Hpos) Hpos)
        as [s3 [o3 [Hc [Hps3 [Hn3 [Hsh3 Hresp3]]]]]].
      rewrite Hc.
      assert (Hidx3 : indices_ok (pending_requests s3))
        by (rewrite Hps3; apply indices_ok_alter, Hidx2).
      assert (Hlive3 : live_from (pending_requests s3) 0 = live_from (pending_requests s) 0).
      { rewrite Hps3. simpl. rewrite live_from_alter_none.
        - subst ps2. rewrite live_from_app. simpl. apply app_nil_r.
        - intros p Hp. subst ps2. rewrite lookup_app_r in Hp by lia.
          rewrite Nat.sub_diag in Hp. simpl in Hp. injection Hp as <-. reflexivity. }
      assert (Hlen3 : length (pending_requests s3) = S (length (pending_requests s)))
        by (rewrite Hps3, length_alter; exact Hlen2).
      assert (Hn3' : num_pending_responses s3 = length (live_from (pending_requests s3) 0) + length gs)
        by (rewrite Hn3, Hlive3; simpl; lia).
      destruct (IH s3 o3 Hidx3 Hn3' Hsh3) as [s' [o' [Hrun [Hidx' [Hn' [Hsh' Hresp]]]]]].
      rewrite Hlen3 in Hrun.
      exists s', o'. split; [exact Hrun|]. split; [exact Hidx'|]. split; [exact Hn'|].
      split; [exact Hsh'|].
      rewrite Hresp, Hresp3, Hresp1.
      replace (num_pending_responses s =? 0) with false by (symmetry; apply Nat.eqb_neq; lia).
      destruct (num_pending_responses s3 =? 0) eqn:E3.
      * apply Nat.eqb_eq in E3. assert (gs = []) as -> by (destruct gs; [reflexivity|simpl in Hn3'; lia]).
        simpl in Hrun. injection Hrun as <- <-. rewrite E3. simpl. lia.
      * destruct (num_pending_responses s' =? 0); lia.
Qed.

End SubmitFragments.

Lemma mget_no_upstream : forall s o index ids,
  (exists arr, pending_response s = Some (RArray arr)) -> 0 < num_pending_responses s ->
  exists s' o', MGETRequest_onChildResponse (makeError "no upstream host") index ids s o = Some (s', o') /\
    pending_requests s' = alter (set_handle None) index (pending_requests s) /\
    num_pending_responses s' = pred (num_pending_responses s) /\
    (0 < num_pending_responses s' -> exists arr, pending_response s' = Some (RArray arr)) /\
    length (responses o') =
      length (responses o) + (if num_pending_responses s' =? 0 then 1 else 0).
Proof.
  intros s o index ids [arr Harr] Hn.
  destruct (mget_swap_loop Error ids "no upstream host" arr (error_count s)) as [arr' ec'] eqn:E.
  assert (Habs : mget_absorb (makeError "no upstream host") ids arr (error_count s) = Some (arr', ec'))
    by (simpl; rewrite E; reflexivity).
  rewrite (mget_step _ _ _ s o arr arr' ec' Harr Hn Habs).
  eexists _, _. split; [reflexivity|]. simpl. split; [reflexivity|]. split; [reflexivity|].
  destruct (pred (num_pending_responses s) =? 0) eqn:En.
  - split; [apply Nat.eqb_eq in En; lia|]. simpl. rewrite length_app. simpl. lia.
  - split; [eauto|]. lia.
Qed.

Lemma mset_no_upstream : forall s o index ids,
  (exists pr, pending_response s = Some pr) -> 0 < num_pending_responses s ->
  exists s' o', MSETRequest_onChildResponse (makeError "no upstream host") index ids s o = Some (s', o') /\
    pending_requests s' = alter (set_handle None) index (pending_requests s) /\
    num_pending_responses s' = pred (num_pending_responses s) /\
    (0 < num_pending_responses s' -> exists pr, pending_response s' = Some pr) /\
    length (responses o') =
      length (responses o) + (if num_pending_responses s' =? 0 then 1 else 0).
Proof.
  intros s o index ids [pr Hpr] Hn.
  rewrite (mset_step _ _ _ s o pr Hpr Hn).
  eexists _, _. split; [reflexivity|]. simpl. split; [reflexivity|]. split; [reflexivity|].
  destruct (pred (num_pending_responses s) =? 0) eqn:En.
  - split; [apply Nat.eqb_eq in En; lia|]. simpl. rewrite length_app. simpl. lia.
  - split; [simpl; eauto|]. lia.
Qed.

(** *** MSET: the error count of the final reply *)

Lemma live_cost_clear out (ps : list PendingRequest) k j p h :
  ps !! j = Some p -> pr_handle p = Some h ->
  live_cost out ps k =
    (if mset_value_ok (child_value (out (k + j))) then 0 else length (pr_response_indexes p)) +
    live_cost out (alter (set_handle None) j ps) k.
Proof.
  revert k j. induction ps as [|q ps IH]; intros k j Hp Hh; [discriminate|].
  destruct j as [|j]; simpl in Hp |- *.
  - injection Hp as ->. rewrite Hh, Nat.add_0_r. lia.
  - rewrite (IH (S k) j Hp Hh). replace (S k + j) with (k + S j) by lia.
    change (list_alter (set_handle None) j ps) with (alter (set_handle None) j ps). lia.
Qed.

Lemma live_cost_app out (ps qs : list PendingRequest) k :
  live_cost out (ps ++ qs) k = live_cost out ps k + live_cost out qs (k + length ps).
Proof.
  revert k. induction ps as [|p ps IH]; intros k; simpl; [by rewrite Nat.add_0_r|].
  rewrite IH. replace (S k + length ps) with (k + S (length ps)) by lia. lia.
Qed.

Lemma live_cost_no_live out (ps : list PendingRequest) k :
  live_from ps k = [] -> live_cost out ps k = 0.
Proof.
  revert k. induction ps as [|p ps IH]; intros k Hl; simpl in *; [reflexivity|].
  destruct (pr_handle p); simpl in Hl; [discriminate|]. exact (IH _ Hl).
Qed.

Lemma mset_deliver (s : FragState) (o : Out) (out : nat -> ChildEvent) (order : list nat) pr :
  indices_ok (pending_requests s) ->
  num_pending_responses s = length (live_from (pending_requests s) 0) ->
  0 < num_pending_responses s ->
  pending_response s = Some pr ->
  Permutation order (live_from (pending_requests s) 0) ->
  exists r' o', deliver (MSETRequest s) (events out order) o = Some (r', o') /\
    responses o' = responses o ++
      [mset_done pr (error_count s + live_cost out (pending_requests s) 0)].
Proof.
  revert s o. induction order as [|j order IH]; intros s o Hidx Hn Hpos Hpr Hperm.
  - apply Permutation_nil in Hperm. rewrite Hperm in Hn. simpl in Hn. lia.
  - destruct (perm_live_head _ j _ Hperm) as [p [h [Hp [Hh Hrest]]]].
    pose proof (live_from_clear _ 0 j p h Hp Hh) as Hlive.
    pose proof (Permutation_length Hlive) as Hlen. simpl in Hlen.
    unfold events. rewrite map_cons, deliver_cons. fold (events out order).
    unfold on_child. unfold_M.
    rewrite (fragment_event_lookup _ s j (out j) p Hp). rewrite (Hidx j p Hp).
    rewrite (mset_step _ _ _ s o pr Hpr Hpos).
    rewrite (live_cost_clear out _ 0 j p h Hp Hh). simpl (0 + j).
    set (ec' := if mset_value_ok (child_value (out j)) then error_count s
                else error_count s + length (pr_response_indexes p)).
    assert (Hec : error_count s + ((if mset_value_ok (child_value (out j)) then 0
                    else length (pr_response_indexes p)) +
                    live_cost out (alter (set_handle None) j (pending_requests s)) 0) =
                  ec' + live_cost out (alter (set_handle None) j (pending_requests s)) 0)
      by (subst ec'; destruct (mset_value_ok (child_value (out j))); lia).
    rewrite Hec.
    destruct (pred (num_pending_responses s) =? 0) eqn:En.
    + apply Nat.eqb_eq in En.
      assert (Hnil : live_from (alter (set_handle None) j (pending_requests s)) 0 = []).
      { destruct (live_from (alter (set_handle None) j (pending_requests s)) 0); [reflexivity|].
        simpl in Hlen. lia. }
      assert (order = []) as ->.
      { apply Permutation_length in Hrest. rewrite Hnil in Hrest. by destruct order. }
      simpl. eexists _, _. split; [reflexivity|]. simpl.
      rewrite (live_cost_no_live _ _ _ Hnil), Nat.add_0_r. reflexivity.
    + apply Nat.eqb_neq in En.
      set (s' := mkFrag (alter (set_handle None) j (pending_requests s))
                        (pred (num_pending_responses s)) ec'
                        (if false && (ec' =? 0) then None else Some pr)).
      assert (Hidx' : indices_ok (pending_requests s')) by (apply indices_ok_alter, Hidx).
      destruct (IH s' o Hidx') as [r' [o' [Hrun Hresp]]]; [simpl; lia|simpl; lia|reflexivity|exact Hrest|].
      exists r', o'. split; [exact Hrun|]. exact Hresp.
Qed.

Lemma mset_submit (out : nat -> ChildEvent) (gs : list (string * list (string * string * nat)))
  (s : FragState) (o : Out) pr :
  indices_ok (pending_requests s) ->
  num_pending_responses s = length (live_from (pending_requests s) 0) + length gs ->
  pending_response s = Some pr -> 0 < num_pending_responses s ->
  exists s' o',
    submit_fragments mset_fragment MSETRequest_onChildResponse gs (length (pending_requests s)) s o
      = Some (s', o') /\
    indices_ok (pending_requests s') /\
    num_pending_responses s' = length (live_from (pending_requests s') 0) /\
    error_count s' + live_cost out (pending_requests s') 0 =
      error_count s + live_cost out (pending_requests s) 0 +
      mset_error_keys out (length (pending_requests s)) (map (fun g => mset_fragment g.2) gs) /\
    (if num_pending_responses s' =? 0
     then responses o' = responses o ++ [mset_done pr (error_count s')]
     else responses o' = responses o /\ pending_response s' = Some pr).
Proof.
  revert s o. induction gs as [|[host xs] gs IH]; intros s o Hidx Hn Hpr Hpos.
  - exists s, o. split; [reflexivity|]. split; [exact Hidx|]. simpl in Hn.
    split; [lia|]. split; [simpl; lia|].
    replace (num_pending_responses s =? 0) with false by (symmetry; apply Nat.eqb_neq; lia).
    split; [reflexivity|exact Hpr].
  - cbn [submit_fragments]. unfold_M. unfold conn_makeRequest.
    set (ids := (mset_fragment xs).2). set (frag := (mset_fragment xs).1).
    set (o1 := out_upstream o (asString (nth 1 (asArray frag) RNull)) frag).
    assert (Hresp1 : responses o1 = responses o) by reflexivity.
    assert (Hkeys : mset_error_keys out (length (pending_requests s))
                      (map (fun g => mset_fragment g.2) ((host, xs) :: gs)) =
                    (if mset_value_ok (fragment_reply out (length (pending_requests s)) (frag, ids))
                     then 0 else length ids) +
                    mset_error_keys out (S (length (pending_requests s)))
                      (map (fun g => mset_fragment g.2) gs)) by reflexivity.
    rewrite Hkeys. unfold fragment_reply. simpl (frag, ids).1.
    simpl in Hn.
    destruct (pool_make (asString (nth 1 (asArray frag) RNull)) frag) as [h|] eqn:Hh.
    + set (ps2 := pending_requests s ++ [mkPending (length (pending_requests s)) ids (Some h)]).
      set (s2 := mkFrag ps2 (num_pending_responses s) (error_count s) (pending_response s)).
      assert (Hs2 : set_pending_handle (length (pending_requests s)) (Some h)
                    (mkFrag (pending_requests s ++ [mkPending (length (pending_requests s)) ids None])
                            (num_pending_responses s) (error_count s) (pending_response s)) = s2).
      { unfold set_pending_handle. simpl. rewrite alter_last. reflexivity. }
      rewrite Hs2.
      assert (Hlen2 : length ps2 = S (length (pending_requests s)))
        by (subst ps2; rewrite length_app; simpl; lia).
      destruct (IH s2 o1) as [s' [o' [Hrun [Hidx' [Hn' [Hec' Hresp]]]]]].
      { apply indices_ok_snoc, Hidx. }
      { simpl. subst ps2. rewrite live_from_app. simpl. rewrite length_app. simpl. lia. }
      { exact Hpr. }
      { simpl. lia. }
      simpl in Hrun. fold ps2 in Hrun. rewrite Hlen2 in Hrun.
      exists s', o'. split; [exact Hrun|]. split; [exact Hidx'|]. split; [exact Hn'|].
      split.
      * rewrite Hec'. simpl. fold ps2. rewrite Hlen2. subst ps2. rewrite live_cost_app. simpl.
        lia.
      * exact Hresp.
    + set (ps2 := pending_requests s ++ [mkPending (length (pending_requests s)) ids None]).
      set (s2 := mkFrag ps2 (num_pending_responses s) (error_count s) (pending_response s)).
      assert (Hs2 : set_pending_handle (length (pending_requests s)) None s2 = s2).
      { unfold set_pending_handle. simpl. subst ps2. rewrite alter_last. reflexivity. }
      rewrite Hs2.
      rewrite (mset_step _ _ _ s2 o1 pr Hpr Hpos). simpl.
      assert (Halt : alter (set_handle None) (length (pending_requests s)) ps2 = ps2)
        by (subst ps2; rewrite alter_last; reflexivity).
      rewrite Halt.
      assert (Hlen2 : length ps2 = S (length (pending_requests s)))
        by (subst ps2; rewrite length_app; simpl; lia).
      assert (Hlive2 : live_from ps2 0 = live_from (pending_requests s) 0)
        by (subst ps2; rewrite live_from_app; simpl; apply app_nil_r).
      assert (Hcost2 : live_cost out ps2 0 = live_cost out (pending_requests s) 0)
        by (subst ps2; rewrite live_cost_app; simpl; lia).
      destruct (pred (num_pending_responses s) =? 0) eqn:En.
      * apply Nat.eqb_eq in En.
        assert (gs = []) as -> by (destruct gs; [reflexivity|simpl in Hn; lia]).
        simpl. eexists _, _. split; [reflexivity|]. simpl.
        split; [apply indices_ok_snoc, Hidx|]. split; [rewrite Hlive2; lia|].
        split; [rewrite Hcost2; simpl; lia|].
        rewrite En. simpl. reflexivity.
      * apply Nat.eqb_neq in En.
        set (s3 := mkFrag ps2 (pred (num_pending_responses s)) (error_count s + length ids)
                          (if false && (error_count s + length ids =? 0) then None else Some pr)).
        destruct (IH s3 o1) as [s' [o' [Hrun [Hidx' [Hn' [Hec' Hresp]]]]]].
        { apply indices_ok_snoc, Hidx. }
        { simpl. rewrite Hlive2. lia. }
        { reflexivity. }
        { simpl. lia. }
        simpl in Hrun. rewrite Hlen2 in Hrun.
        exists s', o'. split; [exact Hrun|]. split; [exact Hidx'|]. split; [exact Hn'|].
        split.
        -- rewrite Hec'. simpl. rewrite Hlen2, Hcost2. lia.
        -- exact Hresp.
Qed.

(** *** Every host group holds at least one key *)

Lemma group_add_nonempty {X} host (x : X) (m : list (string * list X)) :
  Forall (fun g => g.2 <> []) m ->
  Forall (fun g => g.2 <> []) (group_add host x m) /\ 1 <= length (group_add host x m).
Proof.
  induction m as [|[h xs] m IH]; intros Hm; simpl.
  - split; [constructor; [simpl; discriminate|constructor]|lia].
  - inversion Hm as [|? ? Hxs Hm']; subst. destruct (String.eqb h host).
    + split; [|simpl; lia]. constructor; [|exact Hm']. simpl. by destruct xs.
    + destruct (IH Hm') as [IH1 _]. split; [constructor; assumption|simpl; lia].
Qed.

Lemma mset_collect_nonempty rest i m :
  Forall (fun g => g.2 <> []) m ->
  Forall (fun g => g.2 <> []) (mset_collect rest i m) /\
  (1 <= length m -> 1 <= length (mset_collect rest i m)).
Proof.
  revert rest i m. fix IH 1. intros [|k [|v rest']] i m Hm; simpl; [tauto|tauto|].
  destruct (group_add_nonempty (getHost (asString k)) (asString k, asString v, i) m Hm) as [H1 H2].
  destruct (IH rest' (S (S i)) _ H1) as [IH1 IH2]. split; [exact IH1|]. intros _. exact (IH2 H2).
Qed.

Lemma mset_request_map_nonempty incoming :
  2 <= length (asArray incoming) -> (length (asArray incoming) - 1) mod 2 = 0 ->
  Forall (fun g => g.2 <> []) (mset_request_map incoming) /\
  1 <= length (mset_request_map incoming).
Proof.
  unfold mset_request_map. intros Hlen Hmod.
  destruct (asArray incoming) as [|a [|k [|v rest]]]; simpl in *; try lia.
  destruct (group_add_nonempty (getHost (asString k)) (asString k, asString v, 0) [] ltac:(constructor))
    as [H1 H2].
  destruct (mset_collect_nonempty rest 2 _ H1) as [H3 H4]. split; [exact H3|exact (H4 H2)].
Qed.

Lemma mset_fragments_nonempty incoming :
  2 <= length (asArray incoming) -> (length (asArray incoming) - 1) mod 2 = 0 ->
  Forall (fun fr => fr.2 <> []) (mset_fragments incoming).
Proof.
  intros Hlen Hmod. destruct (mset_request_map_nonempty incoming Hlen Hmod) as [Hne _].
  unfold mset_fragments. apply Forall_forall. intros fr Hin.
  apply list_elem_of_In, in_map_iff in Hin as [g [<- Hg]].
  apply (Permutation_in g (iter_order_perm _ _)) in Hg. apply list_elem_of_In in Hg.
  rewrite Forall_forall in Hne. specialize (Hne g Hg). simpl.
  destruct g as [h [|x xs]]; simpl in *; [contradiction|discriminate].
Qed.

Lemma mset_error_keys_zero out k frs :
  Forall (fun fr => fr.2 <> []) frs ->
  (mset_error_keys out k frs =? 0) = mset_all_ok out k frs.
Proof.
  revert k. induction frs as [|fr frs IH]; intros k Hne; [reflexivity|].
  inversion Hne as [|? ? Hfr Hne']; subst. simpl.
  destruct (mset_value_ok (fragment_reply out k fr)); simpl.
  - exact (IH (S k) Hne').
  - destruct fr as [f [|x xs]]; simpl in *; [contradiction|reflexivity].
Qed.

Lemma indices_ok_nil : indices_ok [].
Proof. intros j p Hp. destruct j; discriminate. Qed.

(** C4: MSET reply. For an MSET of well-formed length (at least one
    key-value pair), whatever the order [order] in which the pool fires the
    callbacks of the fragments still in flight and whatever the reply
    [out j] of fragment [j], the request delivers exactly one reply:
    SimpleString "OK" when every fragment's reply is SimpleString "OK", and
    otherwise Error("finished with K error(s)") with K the number of keys of
    the fragments whose reply is not "OK" (a fragment without upstream host
    counts with its synthesized "no upstream host" error). *)
Theorem mset_reply_ok_or_error_count (incoming : RespValue) (o : Out)
  (out : nat -> ChildEvent) (order : list nat) :
  2 <= length (asArray incoming) -> (length (asArray incoming) - 1) mod 2 = 0 ->
  let frs := mset_fragments incoming in
  let expected := if mset_all_ok out 0 frs then RSimpleString "OK"
                  else mset_finished_error (mset_error_keys out 0 frs) in
  match MSETRequest_create incoming o with
  | Some (Some r, o1) =>
      Permutation order (live r) ->
      exists r' o2, deliver r (events out order) o1 = Some (r', o2) /\
                    responses o2 = responses o ++ [expected]
  | Some (None, o1) => responses o1 = responses o ++ [expected]
  | None => False
  end.
Proof.
  intros Hlen Hmod frs expected.
  assert (Hexp : expected = mset_done (RSimpleString "") (mset_error_keys out 0 frs)).
  { subst expected. unfold mset_done.
    rewrite (mset_error_keys_zero out 0 frs (mset_fragments_nonempty incoming Hlen Hmod)).
    destruct (mset_all_ok out 0 frs); reflexivity. }
  destruct (mset_request_map_nonempty incoming Hlen Hmod) as [_ Hne].
  unfold MSETRequest_create.
  replace ((length (asArray incoming) - 1) mod 2 =? 0) with true by (symmetry; apply Nat.eqb_eq; exact Hmod).
  unfold_M. cbn [negb]. cbv beta iota.
  set (rm := mset_request_map incoming).
  pose proof (Permutation_length (iter_order_perm _ rm)) as Hperm_len.
  set (s0 := mkFrag [] (length rm) 0 (Some (RSimpleString ""))).
  destruct (mset_submit out (iter_order _ rm) s0 o (RSimpleString ""))
    as [s' [o' [Hrun [Hidx' [Hn' [Hec' Hresp]]]]]].
  { apply indices_ok_nil. }
  { simpl. lia. }
  { reflexivity. }
  { simpl. fold rm in Hne. lia. }
  simpl in Hrun. rewrite Hrun.
  assert (Hk : mset_error_keys out 0 frs = error_count s' + live_cost out (pending_requests s') 0)
    by (rewrite Hec'; reflexivity).
  rewrite Hexp, Hk.
  destruct (num_pending_responses s' =? 0) eqn:En.
  - apply Nat.eqb_eq in En.
    replace (0 <? num_pending_responses s') with false by (symmetry; apply Nat.ltb_ge; lia).
    assert (Hnil : live_from (pending_requests s') 0 = []) by (apply length_zero_iff_nil; lia).
    rewrite (live_cost_no_live _ _ _ Hnil), Nat.add_0_r. exact Hresp.
  - apply Nat.eqb_neq in En. destruct Hresp as [Hresp Hpr].
    replace (0 <? num_pending_responses s') with true by (symmetry; apply Nat.ltb_lt; lia).
    intros Hperm. simpl in Hperm.
    destruct (mset_deliver s' o' out order (RSimpleString "") Hidx' Hn' ltac:(lia) Hpr Hperm)
      as [r' [o2 [Hdel Hresp2]]].
    exists r', o2. split; [exact Hdel|]. rewrite Hresp2, Hresp. reflexivity.
Qed.

(** *** One response per request *)

Lemma group_add_length {X} host (x : X) (m : list (string * list X)) :
  1 <= length (group_add host x m).
Proof.
  destruct m as [|[h xs] m]; simpl; [lia|]. destruct (String.eqb h host); simpl; lia.
Qed.

Lemma mget_collect_length ks i m : 1 <= length m -> 1 <= length (mget_collect ks i m).
Proof.
  revert i m. induction ks as [|k ks IH]; intros i m Hm; simpl; [exact Hm|].
  apply IH, group_add_length.
Qed.

Lemma mget_request_map_length incoming :
  2 <= length (asArray incoming) -> 1 <= length (mget_request_map incoming).
Proof.
  unfold mget_request_map. intros Hlen.
  destruct (asArray incoming) as [|a [|k ks]]; simpl in *; try lia.
  apply mget_collect_length. simpl. lia.
Qed.

Lemma map_fst_events out order : map fst (events out order) = order.
Proof. induction order as [|j order IH]; simpl; [reflexivity|]. by rewrite IH. Qed.

Lemma single_server_single_response o key incoming out order :
  single_response o
    ((handle ← conn_makeRequest key incoming;
      match handle with
      | None => onResponse (makeError "no upstream host") ;; mret None
      | Some _ => mret (Some (SingleServerRequest handle))
      end) o) out order.
Proof.
  unfold conn_makeRequest. unfold_M. destruct (pool_make key incoming) as [h|]; simpl.
  - split; [reflexivity|]. intros Hperm.
    symmetry in Hperm. apply Permutation_length_1_inv in Hperm. subst order.
    simpl. unfold_M. destruct (out 0); simpl; rewrite length_app; simpl; lia.
  - rewrite length_app. simpl. lia.
Qed.

Lemma startRequest_single_response h incoming o out order :
  2 <= length (asArray incoming) ->
  single_response o (startRequest h incoming o) out order.
Proof.
  intros Hlen. destruct h; simpl.
  - apply single_server_single_response.
  - unfold EvalRequest_create. destruct (length (asArray incoming) <? 4).
    + simpl. rewrite length_app. simpl. lia.
    + apply single_server_single_response.
  - unfold MGETRequest_create. unfold_M.
    set (rm := mget_request_map incoming).
    pose proof (Permutation_length (iter_order_perm _ rm)) as Hperm_len.
    pose proof (mget_request_map_length incoming Hlen) as Hne. fold rm in Hne.
    set (s0 := mkFrag [] (length rm) 0
                 (Some (RArray (replicate (length (asArray incoming) - 1) RNull)))).
    destruct (submit_fragments_once mget_fragment MGETRequest_onChildResponse
                (fun pr => exists arr, pr = Some (RArray arr)) mget_no_upstream
                (iter_order _ rm) s0 o)
      as [s' [o' [Hrun [Hidx' [Hn' [Hsh' Hresp]]]]]].
    { apply indices_ok_nil. }
    { simpl. lia. }
    { intros _. simpl. eauto. }
    simpl in Hrun. rewrite Hrun. simpl in Hresp.
    replace (length rm =? 0) with false in Hresp by (symmetry; apply Nat.eqb_neq; lia).
    destruct (0 <? num_pending_responses s') eqn:Hpos.
    + apply Nat.ltb_lt in Hpos.
      replace (num_pending_responses s' =? 0) with false in Hresp
        by (symmetry; apply Nat.eqb_neq; lia).
      split; [lia|]. intros Hperm. simpl in Hperm.
      rewrite <- (map_fst_events out order) in Hperm.
      pose proof (mget_deliver s' o' (events out order) Hidx' Hn' Hsh' Hperm) as Hdel.
      destruct (deliver (MGETRequest s') (events out order) o') as [[r2 o2]|]; [|exact Hdel].
      rewrite Hdel. replace (num_pending_responses s' =? 0) with false
        by (symmetry; apply Nat.eqb_neq; lia). lia.
    + apply Nat.ltb_ge in Hpos.
      replace (num_pending_responses s' =? 0) with true in Hresp
        by (symmetry; apply Nat.eqb_eq; lia). simpl. lia.
  - unfold MSETRequest_create. unfold_M.
    destruct ((length (asArray incoming) - 1) mod 2 =? 0) eqn:Hmod; cbn [negb]; cbv beta iota.
    + apply Nat.eqb_eq in Hmod. unfold_M.
      destruct (mset_request_map_nonempty incoming Hlen Hmod) as [_ Hne].
      set (rm := mset_request_map incoming). fold rm in Hne.
      pose proof (Permutation_length (iter_order_perm _ rm)) as Hperm_len.
      set (s0 := mkFrag [] (length rm) 0 (Some (RSimpleString ""))).
      destruct (mset_submit out (iter_order _ rm) s0 o (RSimpleString ""))
        as [s' [o' [Hrun [Hidx' [Hn' [_ Hresp]]]]]].
      { apply indices_ok_nil. }
      { simpl. lia. }
      { reflexivity. }
      { simpl. lia. }
      simpl in Hrun. rewrite Hrun.
      destruct (num_pending_responses s' =? 0) eqn:En.
      * apply Nat.eqb_eq in En.
        replace (0 <? num_pending_responses s') with false by (symmetry; apply Nat.ltb_ge; lia).
        simpl. rewrite Hresp, length_app. simpl. lia.
      * apply Nat.eqb_neq in En. destruct Hresp as [Hresp Hpr].
        replace (0 <? num_pending_responses s') with true by (symmetry; apply Nat.ltb_lt; lia).
        split; [by rewrite Hresp|]. intros Hperm. simpl in Hperm.
        destruct (mset_deliver s' o' out order (RSimpleString "") Hidx' Hn' ltac:(lia) Hpr Hperm)
          as [r' [o2 [Hdel Hresp2]]].
        rewrite Hdel, Hresp2, length_app, Hresp. simpl. lia.
    + simpl. rewrite length_app. simpl. lia.
Qed.

(** C1 (amended): one response per request. Whatever the request, the
    command map, the order [order] in which the pool fires the callbacks of
    the fragments (or the single upstream request) still in flight, and
    each one's outcome [out j]: a request that [makeRequest] answers with
    no request object has received exactly one response; otherwise it has
    received none yet, and receives exactly one once every callback has
    fired, unless an MGET fragment got an array reply of the wrong shape,
    where the run aborts with no response at all. *)
Theorem makeRequest_single_response (command_map : gmap string Handler) (request : RespValue)
  (o : Out) (out : nat -> ChildEvent) (order : list nat) :
  single_response o (InstanceImpl_makeRequest command_map request o) out order.
Proof.
  assert (Hinv : single_response o (InstanceImpl_onInvalidRequest o) out order)
    by (simpl; rewrite length_app; simpl; lia).
  destruct request as [| | | | |args]; try exact Hinv.
  unfold InstanceImpl_makeRequest.
  destruct (length args <? 2) eqn:Hl; [exact Hinv|].
  destruct (negb (forallb is_bulk_string args)); [exact Hinv|].
  apply Nat.ltb_ge in Hl.
  destruct (command_map !! _) as [h|].
  - unfold_M. unfold inc_total.
    pose proof (startRequest_single_response h (RArray args)
                  (out_total o (to_lower (asString (nth 0 args RNull)))) out order Hl) as H.
    exact H.
  - simpl. rewrite length_app. simpl. lia.
Qed.

(** *** The host map of MGET and MSET *)

Lemma group_add_hosts {X} host (x : X) (m : list (string * list X)) h :
  In h (map fst (group_add host x m)) -> h = host \/ In h (map fst m).
Proof.
  induction m as [|[h' xs] m IH]; simpl; [intuition|].
  destruct (String.eqb h' host); simpl; [tauto|]. intros [->|Hin]; [tauto|].
  destruct (IH Hin); tauto.
Qed.

Lemma group_add_NoDup {X} host (x : X) (m : list (string * list X)) :
  NoDup (map fst m) -> NoDup (map fst (group_add host x m)).
Proof.
  induction m as [|[h xs] m IH]; intros Hnd; simpl.
  - apply NoDup_singleton.
  - apply NoDup_cons in Hnd as [Hh Hnd'].
    destruct (String.eqb h host) eqn:E; simpl; [apply NoDup_cons; split; assumption|].
    apply NoDup_cons. split; [|exact (IH Hnd')].
    intros Hin. apply list_elem_of_In, group_add_hosts in Hin as [->|Hin].
    + rewrite String.eqb_refl in E. discriminate.
    + apply Hh, list_elem_of_In, Hin.
Qed.

Lemma group_add_concat {X} host (x : X) (m : list (string * list X)) :
  Permutation (concat (map snd (group_add host x m))) (concat (map snd m) ++ [x]).
Proof.
  induction m as [|[h xs] m IH]; simpl; [reflexivity|].
  destruct (String.eqb h host); simpl.
  - rewrite <- !app_assoc. apply Permutation_app_head. apply Permutation_app_comm.
  - rewrite <- app_assoc. apply Permutation_app_head. exact IH.
Qed.

Lemma group_add_Forall {X} (Q : string -> X -> Prop) host (x : X) (m : list (string * list X)) :
  Q host x -> Forall (fun g => Forall (Q g.1) g.2) m ->
  Forall (fun g => Forall (Q g.1) g.2) (group_add host x m).
Proof.
  intros Hx. induction m as [|[h xs] m IH]; intros Hm; simpl.
  - repeat constructor. exact Hx.
  - inversion Hm as [|? ? Hxs Hm']; subst.
    destruct (String.eqb h host) eqn:E.
    + apply String.eqb_eq in E. subst h. constructor; [|exact Hm'].
      simpl in *. apply Forall_app. split; [exact Hxs|]. repeat constructor. exact Hx.
    + constructor; [exact Hxs|exact (IH Hm')].
Qed.

Lemma drop_cons_inv {A} (l l' : list A) (i : nat) (x : A) :
  drop i l = x :: l' -> l !! i = Some x /\ drop (S i) l = l'.
Proof.
  intros H. split.
  - pose proof (lookup_drop l i 0) as E. rewrite H, Nat.add_0_r in E. simpl in E. by rewrite E.
  - replace (S i) with (i + 1) by lia. rewrite <- drop_drop, H. reflexivity.
Qed.

Lemma mget_collect_spec (args : list RespValue) ks i m :
  drop i (tl args) = ks ->
  NoDup (map fst m) ->
  Forall (fun g => g.2 <> []) m ->
  Forall (fun g => Forall (mget_key_ok args g.1) g.2) m ->
  NoDup (map fst (mget_collect ks i m)) /\
  Forall (fun g => g.2 <> []) (mget_collect ks i m) /\
  Forall (fun g => Forall (mget_key_ok args g.1) g.2) (mget_collect ks i m) /\
  Permutation (map snd (concat (map snd (mget_collect ks i m))))
              (map snd (concat (map snd m)) ++ seq i (length ks)).
Proof.
  revert i m. induction ks as [|k ks IH]; intros i m Hdrop Hnd Hne Hok; simpl.
  - split; [exact Hnd|]. split; [exact Hne|]. split; [exact Hok|]. by rewrite app_nil_r.
  - destruct (drop_cons_inv _ _ _ _ Hdrop) as [Hk Hdrop'].
    destruct (IH (S i) (group_add (getHost (asString k)) (asString k, i) m) Hdrop')
      as (H1 & H2 & H3 & H4).
    + apply group_add_NoDup, Hnd.
    + apply group_add_nonempty, Hne.
    + apply group_add_Forall; [|exact Hok]. split; [reflexivity|].
      exists k. split; [|reflexivity]. rewrite <- lookup_tail. exact Hk.
    + split; [exact H1|]. split; [exact H2|]. split; [exact H3|].
      rewrite H4, group_add_concat, map_app, <- app_assoc. reflexivity.
Qed.

Lemma mset_collect_spec (args : list RespValue) rest i m :
  drop i (tl args) = rest ->
  NoDup (map fst m) ->
  Forall (fun g => g.2 <> []) m ->
  Forall (fun g => Forall (mset_key_ok args g.1) g.2) m ->
  NoDup (map fst (mset_collect rest i m)) /\
  Forall (fun g => g.2 <> []) (mset_collect rest i m) /\
  Forall (fun g => Forall (mset_key_ok args g.1) g.2) (mset_collect rest i m) /\
  Permutation (map snd (concat (map snd (mset_collect rest i m))))
              (map snd (concat (map snd m)) ++ map (fun p => i + 2 * p) (seq 0 (length rest / 2))).
Proof.
  revert rest i m. fix IH 1. intros [|k [|v rest']] i m Hdrop Hnd Hne Hok.
  - simpl. split; [exact Hnd|]. split; [exact Hne|]. split; [exact Hok|]. by rewrite app_nil_r.
  - simpl. split; [exact Hnd|]. split; [exact Hne|]. split; [exact Hok|]. by rewrite app_nil_r.
  - destruct (drop_cons_inv _ _ _ _ Hdrop) as [Hk Hdrop1].
    destruct (drop_cons_inv _ _ _ _ Hdrop1) as [Hv Hdrop2].
    cbn [mset_collect].
    destruct (IH rest' (S (S i)) (group_add (getHost (asString k)) (asString k, asString v, i) m) Hdrop2)
      as (H1 & H2 & H3 & H4).
    + apply group_add_NoDup, Hnd.
    + apply group_add_nonempty, Hne.
    + apply group_add_Forall; [|exact Hok]. split; [reflexivity|].
      exists k, v. split; [rewrite <- lookup_tail; exact Hk|].
      split; [rewrite <- lookup_tail; exact Hv|]. auto.
    + split; [exact H1|]. split; [exact H2|]. split; [exact H3|].
      rewrite H4, group_add_concat, map_app, <- app_assoc. apply Permutation_app_head.
      replace (length (k :: v :: rest') / 2) with (S (length rest' / 2)).
      2:{ simpl length. replace (S (S (length rest'))) with (length rest' + 1 * 2) by lia.
          rewrite Nat.div_add by lia. lia. }
      simpl. rewrite Nat.add_0_r. constructor.
      rewrite <- seq_shift, map_map. apply Permutation_refl'. apply map_ext. intros p. lia.
Qed.

Lemma Forall_and_pair {A} (P Q : A -> Prop) (l : list A) :
  Forall P l -> Forall Q l -> Forall (fun x => P x /\ Q x) l.
Proof. intros HP HQ. induction HP; inversion HQ; subst; constructor; auto. Qed.

Lemma length_tl_pred {A} (l : list A) : length (tl l) = length l - 1.
Proof. destruct l; simpl; lia. Qed.

Lemma mget_request_map_spec (incoming : RespValue) :
  let rm := mget_request_map incoming in
  NoDup (map fst rm) /\
  Forall (fun g => g.2 <> [] /\ Forall (mget_key_ok (asArray incoming) g.1) g.2) rm /\
  Permutation (map snd (concat (map snd rm))) (seq 0 (length (asArray incoming) - 1)).
Proof.
  intros rm.
  destruct (mget_collect_spec (asArray incoming) (tl (asArray incoming)) 0 [] eq_refl
              (NoDup_nil_2) ltac:(constructor) ltac:(constructor)) as (H1 & H2 & H3 & H4).
  split; [exact H1|]. split; [exact (Forall_and_pair _ _ _ H2 H3)|].
  subst rm. unfold mget_request_map. rewrite H4, length_tl_pred. reflexivity.
Qed.

(** The MGET host map splits the keys into one group per host, with no
    empty group. Each entry (k, i) of a group holds the key read from
    argument i + 1, and that key's host is the group's. The indexes of all
    groups together are 0 .. N - 1, each exactly once. *)
Theorem mget_request_map_partition (incoming : RespValue) :
  let rm := mget_request_map incoming in
  NoDup (map fst rm) /\
  Forall (fun g => g.2 <> [] /\ Forall (mget_key_ok (asArray incoming) g.1) g.2) rm /\
  Permutation (map snd (concat (map snd rm))) (seq 0 (length (asArray incoming) - 1)).
Proof. exact (mget_request_map_spec incoming). Qed.

Lemma mset_request_map_spec (incoming : RespValue) :
  let rm := mset_request_map incoming in
  NoDup (map fst rm) /\
  Forall (fun g => g.2 <> [] /\ Forall (mset_key_ok (asArray incoming) g.1) g.2) rm /\
  Permutation (map snd (concat (map snd rm)))
              (map (fun p => 2 * p) (seq 0 ((length (asArray incoming) - 1) / 2))).
Proof.
  intros rm.
  destruct (mset_collect_spec (asArray incoming) (tl (asArray incoming)) 0 [] eq_refl
              (NoDup_nil_2) ltac:(constructor) ltac:(constructor)) as (H1 & H2 & H3 & H4).
  split; [exact H1|]. split; [exact (Forall_and_pair _ _ _ H2 H3)|].
  subst rm. unfold mset_request_map. rewrite H4, length_tl_pred. simpl.
  apply Permutation_refl'. apply map_ext. intros p. lia.
Qed.

(** The MSET host map splits the key-value pairs into one group per host,
    with no empty group. Each entry (k, v, i) of a group holds the key read
    from argument i + 1 and the value read from argument i + 2, and the
    key's host is the group's. The indexes of all groups together are
    0, 2, 4, ..., one per pair, each exactly once. *)
Theorem mset_request_map_partition (incoming : RespValue) :
  let rm := mset_request_map incoming in
  NoDup (map fst rm) /\
  Forall (fun g => g.2 <> [] /\ Forall (mset_key_ok (asArray incoming) g.1) g.2) rm /\
  Permutation (map snd (concat (map snd rm)))
              (map (fun p => 2 * p) (seq 0 ((length (asArray incoming) - 1) / 2))).
Proof. exact (mset_request_map_spec incoming). Qed.

(** *** What creation sends upstream *)

Lemma only_responses_trans o1 o2 o3 :
  only_responses o1 o2 -> only_responses o2 o3 -> only_responses o1 o3.
Proof. unfold only_responses. intros (? & ? & ? & ? & ?) (? & ? & ? & ? & ?). repeat split; congruence. Qed.

Lemma only_responses_respond o v : only_responses o (out_respond o v).
Proof. repeat split. Qed.

Lemma only_responses_refl o : only_responses o o.
Proof. repeat split. Qed.

Lemma mget_child_only_responses v index ids s o s' o' :
  MGETRequest_onChildResponse v index ids s o = Some (s', o') -> only_responses o o'.
Proof.
  unfold MGETRequest_onChildResponse. unfold_M. intros H.
  destruct (pending_response _) as [[| | | | |arr]|]; try discriminate.
  destruct (mget_absorb _ _ _ _) as [[arr' ec]|]; [|discriminate].
  unfold assert in H. destruct (0 <? _); [|discriminate]. unfold_M.
  destruct (pred _ =? 0); injection H as <- <-; [apply only_responses_respond|apply only_responses_refl].
Qed.

Lemma mset_child_only_responses v index ids s o s' o' :
  MSETRequest_onChildResponse v index ids s o = Some (s', o') -> only_responses o o'.
Proof.
  unfold MSETRequest_onChildResponse. unfold_M. intros H. unfold assert in H.
  destruct (0 <? _); [|discriminate]. unfold_M.
  destruct (pred _ =? 0); [|injection H as <- <-; apply only_responses_refl].
  destruct (_ =? 0).
  - destruct (pending_response _); [|discriminate]. injection H as <- <-. apply only_responses_respond.
  - injection H as <- <-. apply only_responses_respond.
Qed.

Lemma submit_fragments_upstream {X} (build : list X -> RespValue * list nat) child
  (Hchild : forall v index ids s o s' o', child v index ids s o = Some (s', o') -> only_responses o o')
  (gs : list (string * list X)) k s o s' o' :
  submit_fragments build child gs k s o = Some (s', o') ->
  upstream o' = upstream o ++ map (fun g => fragment_route (build g.2).1) gs /\
  cancels o' = cancels o /\ invalid_request o' = invalid_request o /\
  unsupported_command o' = unsupported_command o /\ command_totals o' = command_totals o.
Proof.
  revert k s o. induction gs as [|[h xs] gs IH]; intros k s o Hrun; simpl in Hrun.
  - injection Hrun as <- <-. rewrite app_nil_r. repeat split.
  - unfold_M. unfold conn_makeRequest in Hrun.
    set (o1 := out_upstream o (asString (nth 1 (asArray (build xs).1) RNull)) (build xs).1) in Hrun.
    destruct (pool_make _ _) as [hd|].
    + destruct (IH _ _ _ Hrun) as (H1 & H2 & H3 & H4 & H5). simpl in *.
      rewrite H1, <- app_assoc. repeat split; assumption.
    + destruct (child _ _ _ _ o1) as [[s3 o3]|] eqn:Hc; [|discriminate].
      destruct (Hchild _ _ _ _ _ _ _ Hc) as (C1 & C2 & C3 & C4 & C5).
      destruct (IH _ _ _ Hrun) as (H1 & H2 & H3 & H4 & H5). simpl in *.
      rewrite H1, C1, <- app_assoc. repeat split; congruence.
Qed.

Lemma mget_fragment_route (xs : list (string * nat)) :
  fragment_route (mget_fragment xs).1 =
    (hd "" (map fst xs), RArray (RBulkString "MGET" :: map (fun ki => RBulkString ki.1) xs)).
Proof. destruct xs as [|[k i] xs]; reflexivity. Qed.

Lemma mset_fragment_route (xs : list (string * string * nat)) :
  fragment_route (mset_fragment xs).1 =
    (hd "" (map (fun kvi => kvi.1.1) xs),
     RArray (RBulkString "MSET" :: flat_map (fun kvi => [RBulkString kvi.1.1; RBulkString kvi.1.2]) xs)).
Proof. destruct xs as [|[[k v] i] xs]; reflexivity. Qed.

Lemma Forall_iter_order {X} (P : string * list X -> Prop) (m : list (string * list X)) :
  Forall P m -> Forall P (iter_order X m).
Proof.
  rewrite !Forall_forall. intros H g Hg. apply H.
  apply list_elem_of_In. apply list_elem_of_In in Hg.
  exact (Permutation_in g (iter_order_perm X m) Hg).
Qed.

(** MGET creation sends exactly one upstream request per host group, in
    the map's iteration order: Array("MGET", k1, ..., kn) with the group's
    keys, keyed by the group's first key, a key of the group's host. It
    touches no stat counter and cancels nothing. *)
Theorem mget_create_upstream (incoming : RespValue) (o : Out) :
  2 <= length (asArray incoming) ->
  exists r o', MGETRequest_create incoming o = Some (r, o') /\
    upstream o' = upstream o ++
      map (fun g => (hd "" (map fst g.2), RArray (RBulkString "MGET" :: map (fun ki => RBulkString ki.1) g.2)))
          (iter_order _ (mget_request_map incoming)) /\
    Forall (fun g => getHost (hd "" (map fst g.2)) = g.1) (iter_order _ (mget_request_map incoming)) /\
    cancels o' = cancels o /\ invalid_request o' = invalid_request o /\
    unsupported_command o' = unsupported_command o /\ command_totals o' = command_totals o.
Proof.
  intros Hlen. unfold MGETRequest_create. unfold_M.
  set (rm := mget_request_map incoming).
  pose proof (Permutation_length (iter_order_perm _ rm)) as Hperm_len.
  pose proof (mget_request_map_length incoming Hlen) as Hne. fold rm in Hne.
  set (s0 := mkFrag [] (length rm) 0
               (Some (RArray (replicate (length (asArray incoming) - 1) RNull)))).
  destruct (submit_fragments_once mget_fragment MGETRequest_onChildResponse
              (fun pr => exists arr, pr = Some (RArray arr)) mget_no_upstream
              (iter_order _ rm) s0 o)
    as [s' [o' [Hrun _]]].
  { apply indices_ok_nil. }
  { simpl. lia. }
  { intros _. simpl. eauto. }
  simpl in Hrun. rewrite Hrun.
  destruct (submit_fragments_upstream _ _ mget_child_only_responses _ _ _ _ _ _ Hrun)
    as (H1 & H2 & H3 & H4 & H5).
  eexists _, _. split; [reflexivity|]. split.
  { rewrite H1. f_equal. apply map_ext. intros g. apply mget_fragment_route. }
  split; [|repeat split; assumption].
  apply Forall_iter_order.
  destruct (mget_collect_spec (asArray incoming) (tl (asArray incoming)) 0 [] eq_refl
              (NoDup_nil_2) ltac:(constructor) ltac:(constructor)) as (_ & Hne' & Hok & _).
  change (mget_collect (tl (asArray incoming)) 0 []) with rm in Hne', Hok. clear -Hne' Hok.
  induction rm as [|[h xs] rm IH]; [constructor|].
  apply Forall_cons in Hne' as [Hxs Hne'']. apply Forall_cons in Hok as [Hk Hok'].
  constructor; [|exact (IH Hne'' Hok')]. simpl in *.
  destruct xs as [|ki xs]; [contradiction|]. apply Forall_cons in Hk as [[Hh _] _]. exact Hh.
Qed.

(** MSET creation, for an even number of arguments after the command name
    (at least one pair), sends exactly one upstream request per host group,
    in the map's iteration order: Array("MSET", k1, v1, ..., kn, vn) with
    the group's pairs, keyed by the group's first key, a key of the group's
    host. It touches no stat counter and cancels nothing. *)
Theorem mset_create_upstream (incoming : RespValue) (o : Out) :
  2 <= length (asArray incoming) -> (length (asArray incoming) - 1) mod 2 = 0 ->
  exists r o', MSETRequest_create incoming o = Some (r, o') /\
    upstream o' = upstream o ++
      map (fun g => (hd "" (map (fun kvi => kvi.1.1) g.2),
                     RArray (RBulkString "MSET" ::
                             flat_map (fun kvi => [RBulkString kvi.1.1; RBulkString kvi.1.2]) g.2)))
          (iter_order _ (mset_request_map incoming)) /\
    Forall (fun g => getHost (hd "" (map (fun kvi => kvi.1.1) g.2)) = g.1)
           (iter_order _ (mset_request_map incoming)) /\
    cancels o' = cancels o /\ invalid_request o' = invalid_request o /\
    unsupported_command o' = unsupported_command o /\ command_totals o' = command_totals o.
Proof.
  intros Hlen Hmod. unfold MSETRequest_create.
  replace ((length (asArray incoming) - 1) mod 2 =? 0) with true by (symmetry; apply Nat.eqb_eq; exact Hmod).
  unfold_M. cbn [negb]. cbv beta iota.
  destruct (mset_request_map_nonempty incoming Hlen Hmod) as [_ Hne].
  set (rm := mset_request_map incoming). fold rm in Hne.
  pose proof (Permutation_length (iter_order_perm _ rm)) as Hperm_len.
  set (s0 := mkFrag [] (length rm) 0 (Some (RSimpleString ""))).
  destruct (mset_submit (fun _ => ChildFailure) (iter_order _ rm) s0 o (RSimpleString ""))
    as [s' [o' [Hrun _]]].
  { apply indices_ok_nil. }
  { simpl. lia. }
  { reflexivity. }
  { simpl. lia. }
  simpl in Hrun. rewrite Hrun.
  destruct (submit_fragments_upstream _ _ mset_child_only_responses _ _ _ _ _ _ Hrun)
    as (H1 & H2 & H3 & H4 & H5).
  eexists _, _. split; [reflexivity|]. split.
  { rewrite H1. f_equal. apply map_ext. intros g. apply mset_fragment_route. }
  split; [|repeat split; assumption].
  apply Forall_iter_order.
  destruct (mset_collect_spec (asArray incoming) (tl (asArray incoming)) 0 [] eq_refl
              (NoDup_nil_2) ltac:(constructor) ltac:(constructor)) as (_ & Hne' & Hok & _).
  change (mset_collect (tl (asArray incoming)) 0 []) with rm in Hne', Hok. clear -Hne' Hok.
  induction rm as [|[h xs] rm IH]; [constructor|].
  apply Forall_cons in Hne' as [Hxs Hne'']. apply Forall_cons in Hok as [Hk Hok'].
  constructor; [|exact (IH Hne'' Hok')]. simpl in *.
  destruct xs as [|kvi xs]; [contradiction|]. apply Forall_cons in Hk as [[Hh _] _]. exact Hh.
Qed.

(** *** MGET: the slots a fragment's reply fills *)

Lemma lookup_insert_in_range {A} (l : list A) i x :
  i < length l -> <[i := x]> l !! i = Some x.
Proof. intros Hi. by apply list_lookup_insert_eq. Qed.

Lemma mget_array_loop_spec ids vals arr :
  length ids = length vals ->
  Forall (fun x => x = RNull \/ exists str, x = RBulkString str) vals ->
  NoDup ids -> Forall (fun i => i < length arr) ids ->
  exists arr', mget_array_loop ids vals arr = Some arr' /\
    length arr' = length arr /\
    (forall k i, ids !! k = Some i -> arr' !! i = vals !! k) /\
    (forall j, j ∉ ids -> arr' !! j = arr !! j).
Proof.
  revert vals arr. induction ids as [|i ids IH]; intros [|x vals] arr Hlen Hvals Hnd Hrange;
    simpl in Hlen; try lia.
  - exists arr. split; [reflexivity|]. split; [reflexivity|]. split; [|reflexivity].
    intros k i Hk. rewrite lookup_nil in Hk. discriminate.
  - apply Forall_cons in Hvals as [Hx Hvals]. apply NoDup_cons in Hnd as [Hi Hnd].
    apply Forall_cons in Hrange as [Hir Hrange].
    assert (Hx' : exists y, y = x /\
                  mget_array_loop (i :: ids) (x :: vals) arr = mget_array_loop ids vals (<[i := y]> arr)).
    { destruct Hx as [->|[str ->]]; eexists; split; reflexivity. }
    destruct Hx' as [y [<- ->]].
    assert (Hrange' : Forall (fun i0 => i0 < length (<[i:=y]> arr)) ids) by (by rewrite length_insert).
    destruct (IH vals (<[i:=y]> arr) ltac:(lia) Hvals Hnd Hrange') as (arr' & Hrun & H1 & H2 & H3).
    exists arr'. split; [exact Hrun|]. rewrite length_insert in H1. split; [exact H1|]. split.
    + intros [|k] j Hk; simpl in Hk.
      * injection Hk as <-. rewrite H3 by exact Hi. simpl. exact (lookup_insert_in_range arr i y Hir).
      * exact (H2 k j Hk).
    + intros j Hj. apply not_elem_of_cons in Hj as [Hji Hj].
      rewrite H3 by exact Hj. by apply list_lookup_insert_ne.
Qed.




(** *** MGET end to end, with an upstream that answers every fragment *)

Lemma submit_fragments_all_handles {X} (build : list X -> RespValue * list nat) child
  (Hpool : forall key v, pool_make key v <> None)
  (gs : list (string * list X)) (s : FragState) (o : Out) :
  exists ps_new o',
    submit_fragments build child gs (length (pending_requests s)) s o =
      Some (mkFrag (pending_requests s ++ ps_new) (num_pending_responses s) (error_count s)
                   (pending_response s), o') /\
    responses o' = responses o /\
    length ps_new = length gs /\
    (forall j p, ps_new !! j = Some p -> exists g h, gs !! j = Some g /\
       p = mkPending (length (pending_requests s) + j) (build g.2).2 (Some h)).
Proof.
  revert s o. induction gs as [|g gs IH]; intros s o.
  - exists [], o. rewrite app_nil_r. split; [by destruct s|]. split; [reflexivity|].
    split; [reflexivity|]. intros j p Hj. rewrite lookup_nil in Hj. discriminate.
  - destruct g as [host xs]. cbn [submit_fragments]. unfold_M. unfold conn_makeRequest.
    set (frag := (build xs).1). set (ids := (build xs).2).
    set (o1 := out_upstream o (asString (nth 1 (asArray frag) RNull)) frag).
    destruct (pool_make (asString (nth 1 (asArray frag) RNull)) frag) as [h|] eqn:Hh;
      [|exfalso; exact (Hpool _ _ Hh)].
    set (s2 := mkFrag (pending_requests s ++ [mkPending (length (pending_requests s)) ids (Some h)])
                      (num_pending_responses s) (error_count s) (pending_response s)).
    assert (Hs2 : set_pending_handle (length (pending_requests s)) (Some h)
                    (mkFrag (pending_requests s ++ [mkPending (length (pending_requests s)) ids None])
                            (num_pending_responses s) (error_count s) (pending_response s)) = s2).
    { unfold set_pending_handle. simpl. rewrite alter_last. reflexivity. }
    rewrite Hs2.
    destruct (IH s2 o1) as (ps_new & o' & Hrun & Hresp & Hlen & Hps).
    simpl in Hrun. rewrite length_app in Hrun. simpl in Hrun.
    replace (length (pending_requests s) + 1) with (S (length (pending_requests s))) in Hrun by lia.
    rewrite Hrun.
    exists (mkPending (length (pending_requests s)) ids (Some h) :: ps_new), o'.
    split; [by rewrite <- app_assoc|]. split; [exact Hresp|]. split; [simpl; lia|].
    intros [|j] p Hj; simpl in Hj.
    + injection Hj as <-. exists (host, xs), h. split; [reflexivity|]. by rewrite Nat.add_0_r.
    + destruct (Hps j p Hj) as (g & h' & Hg & ->). exists g, h'. split; [exact Hg|].
      simpl. rewrite length_app. simpl. f_equal. lia.
Qed.

Lemma NoDup_concat_disjoint {A} (L : list (list A)) a b la lb x :
  NoDup (concat L) -> L !! a = Some la -> L !! b = Some lb -> a <> b ->
  x ∈ la -> x ∉ lb.
Proof.
  revert a b. induction L as [|l L IH]; intros a b Hnd Ha Hb Hab Hx Hy; [rewrite lookup_nil in Ha; discriminate|].
  simpl in Hnd. apply NoDup_app in Hnd as (Hl & Hdis & HL).
  destruct a as [|a], b as [|b]; simpl in Ha, Hb; try congruence.
  - injection Ha as <-. apply (Hdis x Hx). apply list_elem_of_In, in_concat.
    exists lb. split; [|by apply list_elem_of_In]. apply list_elem_of_In, list_elem_of_lookup. eauto.
  - injection Hb as <-. apply (Hdis x Hy). apply list_elem_of_In, in_concat.
    exists la. split; [|by apply list_elem_of_In]. apply list_elem_of_In, list_elem_of_lookup. eauto.
  - exact (IH a b HL Ha Hb ltac:(lia) Hx Hy).
Qed.

Lemma NoDup_concat_member {A} (L : list (list A)) a la :
  NoDup (concat L) -> L !! a = Some la -> NoDup la.
Proof.
  revert a. induction L as [|l L IH]; intros a Hnd Ha; [rewrite lookup_nil in Ha; discriminate|].
  simpl in Hnd. apply NoDup_app in Hnd as (Hl & _ & HL).
  destruct a as [|a]; simpl in Ha; [injection Ha as <-; exact Hl|exact (IH a HL Ha)].
Qed.

Lemma live_from_all_handles (ps : list PendingRequest) (k : nat) :
  (forall j p, ps !! j = Some p -> pr_handle p <> None) -> length (live_from ps k) = length ps.
Proof.
  revert k. induction ps as [|p ps IH]; intros k H; [reflexivity|].
  simpl. rewrite length_app, (IH (S k)) by (intros j q Hq; exact (H (S j) q Hq)).
  destruct (pr_handle p) eqn:Hp; [reflexivity|]. exfalso. exact (H 0 p eq_refl Hp).
Qed.

Lemma live_from_has_handle (ps : list PendingRequest) j p h :
  ps !! j = Some p -> pr_handle p = Some h -> j ∈ live_from ps 0.
Proof.
  intros Hp Hh. apply list_elem_of_In.
  apply (Permutation_in _ (Permutation_sym (live_from_clear ps 0 j p h Hp Hh))). left. reflexivity.
Qed.

Section MgetStore.
Variable args : list RespValue.
Variable store : string -> RespValue.
Variable gs : list (string * list (string * nat)).
Hypothesis Hstore : forall k, store k = RNull \/ exists str, store k = RBulkString str.
Hypothesis Hnd : NoDup (flat_map (fun g => map snd g.2) gs).
Hypothesis Hrange : forall i, i ∈ flat_map (fun g => map snd g.2) gs -> i < length args - 1.
Hypothesis Hcover : forall i, i < length args - 1 -> i ∈ flat_map (fun g => map snd g.2) gs.
Hypothesis Hkey : Forall (fun g => Forall (fun ki => exists a, args !! S ki.2 = Some a /\ asString a = ki.1) g.2) gs.

Lemma mget_store_ids_lookup j g : gs !! j = Some g -> map (fun g => map snd g.2) gs !! j = Some (map snd g.2).
Proof. intros Hg. by rewrite list_lookup_fmap, Hg. Qed.

Lemma mget_store_disjoint j g j' g' i :
  gs !! j = Some g -> gs !! j' = Some g' -> j <> j' -> i ∈ map snd g'.2 -> i ∉ map snd g.2.
Proof.
  intros Hg Hg' Hne Hi. rewrite flat_map_concat_map in Hnd.
  exact (NoDup_concat_disjoint _ j' j _ _ i Hnd (mget_store_ids_lookup j' g' Hg')
           (mget_store_ids_lookup j g Hg) (not_eq_sym Hne) Hi).
Qed.

Lemma mget_store_in_flat j g i : gs !! j = Some g -> i ∈ map snd g.2 -> i ∈ flat_map (fun g => map snd g.2) gs.
Proof.
  intros Hg Hi. apply list_elem_of_In, in_flat_map. exists g. split.
  - apply list_elem_of_In. by apply (list_elem_of_lookup_2 _ j).
  - by apply list_elem_of_In.
Qed.

Lemma mget_store_owner i : i < length args - 1 -> exists j g, gs !! j = Some g /\ i ∈ map snd g.2.
Proof.
  intros Hi. pose proof (Hcover i Hi) as Hc. apply list_elem_of_In, in_flat_map in Hc as [g [Hg Hig]].
  apply list_elem_of_In, list_elem_of_lookup_1 in Hg as [j Hj]. exists j, g.
  split; [exact Hj|]. by apply list_elem_of_In.
Qed.

Lemma mget_store_vals j g k i :
  gs !! j = Some g -> map snd g.2 !! k = Some i ->
  map (fun ki => store ki.1) g.2 !! k = Some (mget_store_value args store i).
Proof.
  intros Hg Hk. rewrite list_lookup_fmap in Hk.
  destruct (g.2 !! k) as [[key i']|] eqn:Hki; [|discriminate]. simpl in Hk. injection Hk as <-.
  rewrite list_lookup_fmap, Hki. simpl. f_equal.
  rewrite Forall_lookup in Hkey. specialize (Hkey j g Hg). rewrite Forall_lookup in Hkey.
  destruct (Hkey k (key, i') Hki) as [a [Ha Hs]]. simpl in Ha, Hs. unfold mget_store_value.
  by rewrite (nth_lookup_Some _ _ _ _ Ha), Hs.
Qed.

Lemma mget_store_deliver (order : list nat) (s : FragState) (o : Out) :
  mget_store_inv args store gs s -> 0 < num_pending_responses s ->
  Permutation order (live_from (pending_requests s) 0) ->
  exists r' o', deliver (MGETRequest s) (events (mget_store_event store gs) order) o = Some (r', o') /\
    responses o' = responses o ++ [RArray (map (mget_store_value args store) (seq 0 (length args - 1)))].
Proof.
  revert s o. induction order as [|j rest IH]; intros s o (Hlen & Hps & Hn & Harr) Hpos Hperm.
  { apply Permutation_nil in Hperm. rewrite Hperm in Hn. simpl in Hn. lia. }
  destruct (perm_live_head _ j _ Hperm) as [p [h [Hp [Hh Hrest]]]].
  pose proof (Permutation_length (live_from_clear _ 0 j p h Hp Hh)) as Hlive. simpl in Hlive.
  destruct (Harr Hpos) as (arr & Hpr & Harrlen & Hslots).
  destruct (Hps j p Hp) as (g & Hg & Hidx & Hids).
  set (vals := map (fun ki => store ki.1) g.2).
  assert (Hout : mget_store_event store gs j = ChildResponse (RArray vals)) by (unfold mget_store_event; by rewrite Hg).
  assert (Hndg : NoDup (map snd g.2)).
  { rewrite flat_map_concat_map in Hnd. exact (NoDup_concat_member _ j _ Hnd (mget_store_ids_lookup j g Hg)). }
  assert (Hrg : Forall (fun i => i < length arr) (map snd g.2)).
  { apply Forall_forall. intros i Hi. rewrite Harrlen. apply Hrange.
    exact (mget_store_in_flat j g i Hg Hi). }
  assert (Hvok : Forall (fun x => x = RNull \/ exists str, x = RBulkString str) vals).
  { apply Forall_forall. intros x Hx. apply list_elem_of_In, in_map_iff in Hx as [ki [<- _]]. apply Hstore. }
  assert (Hvlen : length (map snd g.2) = length vals) by (unfold vals; by rewrite !length_map).
  destruct (mget_array_loop_spec (map snd g.2) vals arr Hvlen Hvok Hndg Hrg)
    as (arr' & Hloop & Hlen' & Hin & Hout').
  assert (Hnew : forall i, i ∈ map snd g.2 -> arr' !! i = Some (mget_store_value args store i)).
  { intros i Hi. apply list_elem_of_lookup_1 in Hi as [k Hk]. rewrite (Hin k i Hk).
    exact (mget_store_vals j g k i Hg Hk). }
  assert (Habs : mget_absorb (RArray vals) (map snd g.2) arr (error_count s) = Some (arr', error_count s)).
  { simpl. rewrite Hvlen, Nat.eqb_refl, Hloop. reflexivity. }
  cbn [events map]. rewrite deliver_cons. unfold on_child. unfold_M.
  rewrite (fragment_event_lookup _ s j _ p Hp), Hout. simpl child_value. rewrite Hidx, Hids.
  rewrite (mget_step _ _ _ s o arr arr' _ Hpr Hpos Habs).
  set (ps' := alter (set_handle None) j (pending_requests s)) in *.
  assert (Hrest' : length (live_from ps' 0) = pred (num_pending_responses s)).
  { rewrite Hn, Hlive. reflexivity. }
  destruct (pred (num_pending_responses s) =? 0) eqn:Hz.
  - apply Nat.eqb_eq in Hz. rewrite Hz in Hrest'.
    apply length_zero_iff_nil in Hrest'. rewrite Hrest' in Hrest. symmetry in Hrest. apply Permutation_nil in Hrest.
    subst rest. simpl. eexists _, _. split; [reflexivity|]. simpl. f_equal. f_equal. f_equal.
    apply list_eq. intros i. destruct (decide (i < length args - 1)) as [HiN|HiN].
    + rewrite list_lookup_fmap, lookup_seq_lt by exact HiN. simpl.
      destruct (mget_store_owner i HiN) as (j' & g' & Hg' & Hig').
      destruct (decide (j = j')) as [<-|Hne].
      * rewrite Hg in Hg'. injection Hg' as <-. exact (Hnew i Hig').
      * rewrite (Hout' i (mget_store_disjoint j g j' g' i Hg Hg' Hne Hig')).
        assert (Hj' : j' < length (pending_requests s)) by (rewrite Hlen; by apply lookup_lt_Some in Hg').
        apply lookup_lt_is_Some_2 in Hj' as [p' Hp'].
        destruct (Hps j' p' Hp') as (g'' & Hg'' & _ & Hids'). rewrite Hg' in Hg''. injection Hg'' as <-.
        rewrite (Hslots j' p' i Hp') by (by rewrite Hids').
        destruct (pr_handle p') as [h'|] eqn:Hh'; [|reflexivity]. exfalso.
        assert (Hp'' : ps' !! j' = Some p') by (unfold ps'; by rewrite list_lookup_alter_ne).
        pose proof (live_from_has_handle ps' j' p' h' Hp'' Hh') as Hin'.
        rewrite Hrest' in Hin'. inversion Hin'.
    + rewrite !lookup_ge_None_2; [reflexivity| |].
      * rewrite length_map, length_seq. lia.
      * rewrite Hlen', Harrlen. lia.
  - apply Nat.eqb_neq in Hz.
    set (s' := mkFrag ps' (pred (num_pending_responses s)) (error_count s) (Some (RArray arr'))).
    assert (Hinv' : mget_store_inv args store gs s').
    { split; [unfold s', ps'; simpl; by rewrite length_alter|]. split.
      { intros j' p' Hp'. simpl in Hp'.
        destruct (lookup_alter_set_handle _ None j j' p' Hp') as (p0 & Hp0 & Hi0 & Hr0).
        destruct (Hps j' p0 Hp0) as (g0 & Hg0 & Hi1 & Hr1). exists g0.
        split; [exact Hg0|]. split; congruence. }
      split; [simpl; lia|]. intros _. exists arr'. split; [reflexivity|]. split; [lia|].
      intros j' p' i Hp' Hi. simpl in Hp'. destruct (decide (j = j')) as [<-|Hne].
      - unfold ps' in Hp'. rewrite list_lookup_alter_eq, Hp in Hp'. simpl in Hp'.
        injection Hp' as <-. simpl in Hi |- *. rewrite Hids in Hi. exact (Hnew i Hi).
      - unfold ps' in Hp'. rewrite list_lookup_alter_ne in Hp' by exact Hne.
        destruct (Hps j' p' Hp') as (g' & Hg' & _ & Hids').
        rewrite Hids' in Hi.
        rewrite (Hout' i (mget_store_disjoint j g j' g' i Hg Hg' Hne Hi)).
        apply (Hslots j' p' i Hp'). by rewrite Hids'. }
    destruct (IH s' o Hinv' ltac:(simpl; lia) Hrest) as (r' & o' & Hrun & Hresp).
    exists r', o'. split; [exact Hrun|exact Hresp].
Qed.

End MgetStore.

Lemma flat_map_indexes {X} (l : list (string * list (X * nat))) :
  flat_map (fun g => map snd g.2) l = map snd (concat (map snd l)).
Proof. induction l as [|g l IH]; simpl; [reflexivity|]. by rewrite IH, map_app. Qed.

Lemma tl_as_indexes (args : list RespValue) (f : RespValue -> RespValue) :
  map (fun i => f (nth (S i) args RNull)) (seq 0 (length args - 1)) = map f (tl args).
Proof.
  apply list_eq. intros i. rewrite !list_lookup_fmap.
  destruct (decide (i < length args - 1)) as [Hi|Hi].
  - rewrite lookup_seq_lt by exact Hi. simpl.
    destruct (tl args !! i) as [a|] eqn:Ha.
    + rewrite lookup_tail in Ha. simpl. by rewrite (nth_lookup_Some _ _ _ _ Ha).
    + apply lookup_ge_None_1 in Ha. rewrite length_tl_pred in Ha. lia.
  - rewrite !lookup_ge_None_2; [reflexivity| |].
    + rewrite length_tl_pred. lia.
    + rewrite length_seq. lia.
Qed.

(** When the pool gives every fragment a handle and the upstream answers
    each fragment with the stored values of its keys (each Null or a bulk
    string), MGET sends nothing back at creation; then, whatever order the
    fragments answer in, it delivers exactly one reply: the array of the
    stored values of the keys, in argument order. *)
Theorem mget_reply_from_store (incoming : RespValue) (o : Out) (store : string -> RespValue) :
  2 <= length (asArray incoming) ->
  (forall key frag, pool_make key frag <> None) ->
  (forall k, store k = RNull \/ exists str, store k = RBulkString str) ->
  exists r o1, MGETRequest_create incoming o = Some (Some r, o1) /\
    responses o1 = responses o /\
    forall order, Permutation order (live r) ->
      exists r' o2, deliver r (events (mget_store_reply store incoming) order) o1 = Some (r', o2) /\
        responses o2 = responses o ++ [RArray (map (fun a => store (asString a)) (tl (asArray incoming)))].
Proof.
  intros Hlen Hpool Hstore.
  destruct (mget_request_map_spec incoming) as (_ & Hforall & Hperm).
  set (args := asArray incoming) in *.
  set (rm := mget_request_map incoming) in *.
  set (gs := iter_order _ rm).
  assert (Hflat : Permutation (flat_map (fun g => map snd g.2) gs) (seq 0 (length args - 1))).
  { rewrite <- Hperm, <- flat_map_indexes. apply Permutation_flat_map. apply iter_order_perm. }
  assert (Hgs : length gs = length rm) by (apply Permutation_length, iter_order_perm).
  assert (Hrm : 0 < length rm).
  { destruct rm as [|g rm']; [|simpl; lia]. simpl in Hperm.
    apply Permutation_length in Hperm. rewrite length_seq in Hperm. simpl in Hperm. lia. }
  assert (Hin : forall i, i ∈ flat_map (fun g => map snd g.2) gs <-> i < length args - 1).
  { intros i. rewrite !list_elem_of_In. split; intros Hi.
    - apply (Permutation_in i Hflat), in_seq in Hi. lia.
    - apply (Permutation_in i (Permutation_sym Hflat)), in_seq. lia. }
  set (s0 := mkFrag [] (length rm) 0 (Some (RArray (replicate (length args - 1) RNull)))).
  destruct (submit_fragments_all_handles mget_fragment MGETRequest_onChildResponse Hpool gs s0 o)
    as (ps_new & o1 & Hrun & Hresp & Hnew & Hps).
  cbn [s0 pending_requests num_pending_responses error_count pending_response length app] in Hrun.
  unfold MGETRequest_create. unfold_M. fold rm. fold gs. fold args. fold s0. rewrite Hrun.
  cbn [num_pending_responses]. replace (0 <? length rm) with true by (symmetry; by apply Nat.ltb_lt).
  eexists _, o1. split; [reflexivity|]. split; [exact Hresp|].
  intros order Hord. simpl live in Hord.
  unfold mget_store_reply. fold rm. fold gs.
  rewrite <- (tl_as_indexes args (fun a => store (asString a))), <- Hresp.
  apply (mget_store_deliver args store gs Hstore).
  - rewrite Hflat. apply NoDup_seq.
  - intros i Hi. by apply Hin.
  - intros i Hi. by apply Hin.
  - apply Forall_iter_order. rewrite Forall_forall in Hforall |- *. intros g Hg.
    destruct (Hforall g Hg) as [_ Hk]. rewrite Forall_forall in Hk |- *.
    intros ki Hki. exact (proj2 (Hk ki Hki)).
  - assert (Hps' : forall j p, ps_new !! j = Some p -> exists g, gs !! j = Some g /\
                     pr_index p = j /\ pr_response_indexes p = map snd g.2 /\ pr_handle p <> None).
    { intros j p Hp. destruct (Hps j p Hp) as (g & h & Hg & ->). exists g.
      split; [exact Hg|]. simpl. split; [reflexivity|]. split; [reflexivity|discriminate]. }
    split; [simpl; lia|]. split.
    { intros j p Hp. destruct (Hps' j p Hp) as (g & Hg & H1 & H2 & _). eauto. }
    split.
    { simpl. rewrite live_from_all_handles; [lia|]. intros j p Hp. by destruct (Hps' j p Hp) as (? & ? & ? & ? & ?). }
    intros _. eexists. split; [reflexivity|]. split; [apply length_replicate|].
    intros j p i Hp Hi. simpl in Hp. destruct (Hps' j p Hp) as (g & Hg & _ & Hids & Hh).
    destruct (pr_handle p) as [h|]; [|congruence].
    apply lookup_replicate_2. apply Hin. rewrite Hids in Hi.
    apply list_elem_of_In, in_flat_map. exists g. split; [|by apply list_elem_of_In].
    apply list_elem_of_In. by apply (list_elem_of_lookup_2 _ j).
  - simpl. exact Hrm.
  - exact Hord.
Qed.

(** *** The command map *)

Lemma addHandler_lookup name h cm k :
  InstanceImpl_addHandler name h cm !! k =
    match cm !! k with
    | Some h' => Some h'
    | None => if String.eqb (to_lower name) k then Some h else None
    end.
Proof.
  unfold InstanceImpl_addHandler.
  destruct (String.eqb (to_lower name) k) eqn:E.
  - apply String.eqb_eq in E. subst k. destruct (cm !! to_lower name) eqn:Hc; [by rewrite Hc|].
    by rewrite lookup_insert_eq.
  - apply String.eqb_neq in E. destruct (cm !! to_lower name) eqn:Hc.
    + by destruct (cm !! k).
    + rewrite lookup_insert_ne by exact E. by destruct (cm !! k).
Qed.

Lemma foldl_addHandler_lookup names h cm k :
  foldl (fun cm c => InstanceImpl_addHandler c h cm) cm names !! k =
    match cm !! k with
    | Some h' => Some h'
    | None => first_registration k (map (fun c => (c, h)) names)
    end.
Proof.
  revert cm. induction names as [|n names IH]; intros cm; simpl.
  - by destruct (cm !! k).
  - rewrite IH, addHandler_lookup. destruct (cm !! k); [reflexivity|].
    by destruct (String.eqb (to_lower n) k).
Qed.

Lemma first_registration_app k l1 l2 :
  first_registration k (l1 ++ l2) =
    match first_registration k l1 with Some h => Some h | None => first_registration k l2 end.
Proof.
  induction l1 as [|[n h] l1 IH]; simpl; [reflexivity|].
  destruct (String.eqb (to_lower n) k); [reflexivity|exact IH].
Qed.

(** The command map the constructor builds: a name maps to the handler of
    the first [addHandler] call whose lowercased name it is, in the order
    simple commands, eval commands, "mget", "mset"; a later registration of
    the same lowercased name is ignored, and a name no call lowercases to
    (such as one with an upper-case letter) has no entry. *)
Theorem command_map_first_registration (simple_commands eval_commands : list string) (k : string) :
  InstanceImpl_command_map simple_commands eval_commands !! k =
    first_registration k (registrations simple_commands eval_commands).
Proof.
  unfold InstanceImpl_command_map, registrations.
  rewrite !addHandler_lookup, !foldl_addHandler_lookup, lookup_empty.
  rewrite !first_registration_app.
  destruct (first_registration k (map (fun c => (c, SimpleHandler)) simple_commands)); [reflexivity|].
  destruct (first_registration k (map (fun c => (c, EvalHandler)) eval_commands)); [reflexivity|].
  cbn [first_registration]. by destruct (String.eqb (to_lower "mget") k).
Qed.

(** *** Statistics *)

Lemma startRequest_counters h incoming o r o' :
  startRequest h incoming o = Some (r, o') ->
  invalid_request o' = invalid_request o /\ unsupported_command o' = unsupported_command o /\
  command_totals o' = command_totals o.
Proof.
  destruct h; simpl.
  - unfold SimpleRequest_create, conn_makeRequest. unfold_M.
    destruct (pool_make _ _); intros H; injection H as _ <-; repeat split.
  - unfold EvalRequest_create, SplitRequestBase_onWrongNumberOfArguments, conn_makeRequest. unfold_M.
    destruct (_ <? 4); [intros H; injection H as _ <-; repeat split|].
    destruct (pool_make _ _); intros H; injection H as _ <-; repeat split.
  - unfold MGETRequest_create. unfold_M. intros H.
    destruct (submit_fragments _ _ _ _ _ o) as [[s o1]|] eqn:Hs; [|discriminate].
    injection H as _ <-.
    destruct (submit_fragments_upstream _ _ mget_child_only_responses _ _ _ _ _ _ Hs) as (_ & _ & H3 & H4 & H5).
    repeat split; assumption.
  - unfold MSETRequest_create, SplitRequestBase_onWrongNumberOfArguments. unfold_M. intros H.
    destruct (negb _); [injection H as _ <-; repeat split|].
    destruct (submit_fragments _ _ _ _ _ o) as [[s o1]|] eqn:Hs; [|discriminate].
    injection H as _ <-.
    destruct (submit_fragments_upstream _ _ mset_child_only_responses _ _ _ _ _ _ Hs) as (_ & _ & H3 & H4 & H5).
    repeat split; assumption.
Qed.

(** Every request [makeRequest] handles moves exactly one statistic by one:
    [invalid_request] (no request object, nothing sent upstream),
    [unsupported_command] (likewise), or the total of the command named by
    the lowercased first argument. *)
Theorem makeRequest_counts_one_stat (command_map : gmap string Handler) (request : RespValue)
  (o : Out) (r : option SplitRequest) (o' : Out) :
  InstanceImpl_makeRequest command_map request o = Some (r, o') ->
  (r = None /\ upstream o' = upstream o /\ invalid_request o' = S (invalid_request o) /\
   unsupported_command o' = unsupported_command o /\ command_totals o' = command_totals o) \/
  (r = None /\ upstream o' = upstream o /\ invalid_request o' = invalid_request o /\
   unsupported_command o' = S (unsupported_command o) /\ command_totals o' = command_totals o) \/
  (invalid_request o' = invalid_request o /\ unsupported_command o' = unsupported_command o /\
   command_totals o' = command_totals o ++ [to_lower (asString (nth 0 (asArray request) RNull))]).
Proof.
  assert (Hinv : forall r o', InstanceImpl_onInvalidRequest o = Some (r, o') ->
            (r = None /\ upstream o' = upstream o /\ invalid_request o' = S (invalid_request o) /\
             unsupported_command o' = unsupported_command o /\ command_totals o' = command_totals o)).
  { intros r0 o0 H. unfold InstanceImpl_onInvalidRequest in H. unfold_M.
    injection H as <- <-. repeat split. }
  unfold InstanceImpl_makeRequest. intros H.
  destruct request as [| | | | |args]; try (left; exact (Hinv _ _ H)).
  destruct (length args <? 2); [left; exact (Hinv _ _ H)|].
  destruct (negb _); [left; exact (Hinv _ _ H)|].
  unfold_M. destruct (command_map !! _) as [h|].
  - right; right. destruct (startRequest_counters _ _ _ _ _ H) as (H1 & H2 & H3).
    rewrite H1, H2, H3. simpl. repeat split.
  - right; left. injection H as <- <-. repeat split.
Qed.

(** *** Single-server commands end to end *)

(** A well-formed command registered as a simple command counts in its
    total and is forwarded unchanged, routed by its first key (the second
    element). Without a handle the client gets "no upstream host" and no
    request object. With a handle nothing is answered yet; then the
    upstream reply is handed to the client as it is, and a failure becomes
    "upstream failure". *)
Theorem simple_command_forwarded (command_map : gmap string Handler) (args : list RespValue) (o : Out) :
  well_formed_command args ->
  command_map !! to_lower (asString (nth 0 args RNull)) = Some SimpleHandler ->
  let key := asString (nth 1 args RNull) in
  let o1 := out_upstream (out_total o (to_lower (asString (nth 0 args RNull)))) key (RArray args) in
  match pool_make key (RArray args) with
  | None => InstanceImpl_makeRequest command_map (RArray args) o =
              Some (None, out_respond o1 (makeError "no upstream host"))
  | Some h =>
      InstanceImpl_makeRequest command_map (RArray args) o = Some (Some (SingleServerRequest (Some h)), o1) /\
      (forall v, deliver (SingleServerRequest (Some h)) [(0, ChildResponse v)] o1 =
                   Some (SingleServerRequest None, out_respond o1 v)) /\
      deliver (SingleServerRequest (Some h)) [(0, ChildFailure)] o1 =
        Some (SingleServerRequest None, out_respond o1 (makeError "upstream failure"))
  end.
Proof.
  intros Hwf Hh key o1. rewrite makeRequest_dispatch, Hh by exact Hwf. simpl.
  unfold SimpleRequest_create, conn_makeRequest. unfold_M. cbn [asArray]. fold key. fold o1.
  destruct (pool_make key (RArray args)) as [h|]; [|reflexivity].
  split; [reflexivity|]. split; [intros v|]; reflexivity.
Qed.

(** A well-formed command registered as an eval command with at least four
    elements counts in its total and is forwarded unchanged, routed by its
    fourth element (the first key after the script and the key count).
    Without a handle the client gets "no upstream host"; with one, the
    upstream reply is handed to the client as it is, and a failure becomes
    "upstream failure". *)
Theorem eval_command_forwarded (command_map : gmap string Handler) (args : list RespValue) (o : Out) :
  well_formed_command args -> 4 <= length args ->
  command_map !! to_lower (asString (nth 0 args RNull)) = Some EvalHandler ->
  let key := asString (nth 3 args RNull) in
  let o1 := out_upstream (out_total o (to_lower (asString (nth 0 args RNull)))) key (RArray args) in
  match pool_make key (RArray args) with
  | None => InstanceImpl_makeRequest command_map (RArray args) o =
              Some (None, out_respond o1 (makeError "no upstream host"))
  | Some h =>
      InstanceImpl_makeRequest command_map (RArray args) o = Some (Some (SingleServerRequest (Some h)), o1) /\
      (forall v, deliver (SingleServerRequest (Some h)) [(0, ChildResponse v)] o1 =
                   Some (SingleServerRequest None, out_respond o1 v)) /\
      deliver (SingleServerRequest (Some h)) [(0, ChildFailure)] o1 =
        Some (SingleServerRequest None, out_respond o1 (makeError "upstream failure"))
  end.
Proof.
  intros Hwf Hlen Hh key o1. rewrite makeRequest_dispatch, Hh by exact Hwf. simpl.
  unfold EvalRequest_create, conn_makeRequest. unfold_M. cbn [asArray].
  replace (length args <? 4) with false by (symmetry; apply Nat.ltb_ge; lia).
  fold key. fold o1.
  destruct (pool_make key (RArray args)) as [h|]; [|reflexivity].
  split; [reflexivity|]. split; [intros v|]; reflexivity.
Qed.

(** *** MGET: the reply has one slot per key *)

Lemma mget_array_loop_length ids vals arr arr' :
  mget_array_loop ids vals arr = Some arr' -> length arr' = length arr.
Proof.
  revert vals arr. induction ids as [|i ids IH]; intros [|x vals] arr H; simpl in H;
    try discriminate; try (injection H as <-; reflexivity).
  destruct x; try discriminate; rewrite (IH _ _ H); apply length_insert.
Qed.

Lemma mget_absorb_length v ids arr ec arr' ec' :
  mget_absorb v ids arr ec = Some (arr', ec') -> length arr' = length arr.
Proof.
  destruct v as [|str|str|z|str|vals]; simpl; intros H;
    try (injection H as Heq; apply (f_equal fst) in Heq; simpl in Heq; subst arr';
         first [apply (proj1 (proj2 (mget_protocol_error_spec _ _ _)))
                                   | apply (proj1 (proj2 (mget_swap_loop_spec _ _ _ _ _)))]).
  destruct (length ids =? length vals); [|discriminate].
  destruct (mget_array_loop ids vals arr) as [a|] eqn:Hl; [|discriminate].
  injection H as <- _. exact (mget_array_loop_length _ _ _ _ Hl).
Qed.

Lemma mget_child_reply_length n v index ids s o s' o' :
  match pending_response s with Some (RArray arr) => length arr = n | None => True | Some _ => False end ->
  MGETRequest_onChildResponse v index ids s o = Some (s', o') ->
  match pending_response s' with Some (RArray arr) => length arr = n | None => True | Some _ => False end /\
  exists new, responses o' = responses o ++ new /\
    Forall (fun r => exists arr, r = RArray arr /\ length arr = n) new.
Proof.
  intros Hinv H. unfold MGETRequest_onChildResponse, set_pending_handle in H. unfold_M.
  cbn [pending_response error_count num_pending_responses pending_requests] in H.
  destruct (pending_response s) as [[| | | | |arr]|]; try contradiction; try discriminate.
  destruct (mget_absorb v ids arr _) as [[arr' ec]|] eqn:Habs; [|discriminate].
  pose proof (mget_absorb_length _ _ _ _ _ _ Habs) as Hlen.
  unfold assert in H. destruct (0 <? _); [|discriminate]. unfold_M.
  destruct (pred _ =? 0); injection H as <- <-; simpl.
  - split; [exact I|]. exists [RArray arr']. split; [reflexivity|]. constructor; [|constructor].
    exists arr'. split; [reflexivity|lia].
  - split; [lia|]. exists []. rewrite app_nil_r. split; [reflexivity|constructor].
Qed.

Lemma mget_submit_reply_length n gs k s o s' o' :
  match pending_response s with Some (RArray arr) => length arr = n | None => True | Some _ => False end ->
  submit_fragments mget_fragment MGETRequest_onChildResponse gs k s o = Some (s', o') ->
  match pending_response s' with Some (RArray arr) => length arr = n | None => True | Some _ => False end /\
  exists new, responses o' = responses o ++ new /\
    Forall (fun r => exists arr, r = RArray arr /\ length arr = n) new.
Proof.
  revert k s o. induction gs as [|[h xs] gs IH]; intros k s o Hinv Hrun; simpl in Hrun.
  - injection Hrun as <- <-. split; [exact Hinv|]. exists []. rewrite app_nil_r. split; [reflexivity|constructor].
  - unfold_M. unfold conn_makeRequest in Hrun.
    destruct (pool_make _ _) as [hd|].
    + pose proof (fun H => IH _ _ _ H Hrun) as IH'.
      destruct (IH' Hinv) as [Hs' (new & Hresp & Hnew)].
      split; [exact Hs'|]. exists new. split; [exact Hresp|exact Hnew].
    + destruct (MGETRequest_onChildResponse _ _ _ _ _) as [[s3 o3]|] eqn:Hc; [|discriminate].
      pose proof (fun H => mget_child_reply_length n _ _ _ _ _ _ _ H Hc) as Hc'.
      destruct (Hc' Hinv) as [Hs3 (new1 & Hr1 & Hn1)].
      destruct (IH _ _ _ Hs3 Hrun) as [Hs' (new2 & Hr2 & Hn2)].
      split; [exact Hs'|]. exists (new1 ++ new2). simpl in Hr1.
      rewrite Hr2, Hr1, app_assoc. split; [reflexivity|]. by apply Forall_app.
Qed.

Lemma mget_deliver_reply_length n evs s o r' o' :
  match pending_response s with Some (RArray arr) => length arr = n | None => True | Some _ => False end ->
  deliver (MGETRequest s) evs o = Some (r', o') ->
  exists new, responses o' = responses o ++ new /\
    Forall (fun r => exists arr, r = RArray arr /\ length arr = n) new.
Proof.
  revert s o. induction evs as [|[j e] evs IH]; intros s o Hinv Hrun.
  - injection Hrun as _ <-. exists []. rewrite app_nil_r. split; [reflexivity|constructor].
  - rewrite deliver_cons in Hrun. unfold on_child, fragment_event in Hrun. unfold_M.
    destruct (pending_requests s !! j) as [p|]; [|discriminate].
    assert (Hc : exists s3 o3, MGETRequest_onChildResponse (child_value e) (pr_index p)
                   (pr_response_indexes p) s o = Some (s3, o3) /\
                   deliver (MGETRequest s3) evs o3 = Some (r', o')).
    { destruct e; cbn [child_value] in *; unfold FragmentedRequest_onChildFailure in Hrun;
        destruct (MGETRequest_onChildResponse _ _ _ _ _) as [[s3 o3]|]; try discriminate;
        (eexists _, _; split; [reflexivity|exact Hrun]). }
    destruct Hc as (s3 & o3 & Hc & Hrest).
    destruct (mget_child_reply_length n _ _ _ _ _ _ _ Hinv Hc) as [Hs3 (new1 & Hr1 & Hn1)].
    destruct (IH _ _ Hs3 Hrest) as (new2 & Hr2 & Hn2).
    exists (new1 ++ new2). rewrite Hr2, Hr1, app_assoc. split; [reflexivity|]. by apply Forall_app.
Qed.

(** Whatever the pool and the upstreams do, every reply an MGET request
    gives the client, at creation or from a fragment's callback, is an
    array with exactly one slot per key of the request. *)
Theorem mget_reply_one_slot_per_key (incoming : RespValue) (o : Out) (r : option SplitRequest) (o1 : Out) :
  MGETRequest_create incoming o = Some (r, o1) ->
  let n := length (asArray incoming) - 1 in
  (exists new, responses o1 = responses o ++ new /\
     Forall (fun v => exists arr, v = RArray arr /\ length arr = n) new) /\
  match r with
  | Some req =>
      forall evs req' o2, deliver req evs o1 = Some (req', o2) ->
        exists new, responses o2 = responses o1 ++ new /\
          Forall (fun v => exists arr, v = RArray arr /\ length arr = n) new
  | None => True
  end.
Proof.
  intros H n. unfold MGETRequest_create in H. unfold_M.
  destruct (submit_fragments _ _ _ _ _ o) as [[s o']|] eqn:Hs; [|discriminate].
  injection H as <- <-.
  pose proof (fun H => mget_submit_reply_length n _ _ _ _ _ _ H Hs) as Hs'.
  destruct (Hs' ltac:(simpl; apply length_replicate)) as [Hinv Hnew].
  split; [exact Hnew|]. destruct (0 <? _); [|exact I].
  intros evs req' o2 Hrun. exact (mget_deliver_reply_length n _ _ _ _ _ Hinv Hrun).
Qed.

End Splitter.

(** ** The sample deployment *)

Lemma insertion_order_perm : forall X (m : list (string * list X)), Permutation (insertion_order X m) m.
Proof. intros X m. reflexivity. Qed.

(** C1: one MGET key, a handle from the pool, and an upstream reply that is
    an array holding an Integer: the ASSERT/NOT_REACHED of
    [MGETRequest::onChildResponse] ends the run with no response at all. *)
Lemma makeRequest_single_response_counterexample :
  match InstanceImpl_makeRequest single_host pool_up insertion_order redis_commands
          (RArray [RBulkString "MGET"; RBulkString "a"]) out0 with
  | Some (Some r, o1) =>
      live r = [0] /\ responses o1 = [] /\
      deliver r [(0, ChildResponse (RArray [RInteger 5]))] o1 = None
  | _ => False
  end.
Proof. vm_compute. split; [reflexivity|split; reflexivity]. Qed.

(** C2: MGET of two keys on a host without upstream: the reply's second
    slot is an empty Error instead of the second key's "no upstream host". *)
Theorem mget_second_slot_loses_reply :
  match InstanceImpl_makeRequest single_host pool_down insertion_order redis_commands
          (RArray [RBulkString "MGET"; RBulkString "a"; RBulkString "b"]) out0 with
  | Some (None, o1) => responses o1 = [RArray [RError "no upstream host"; RError ""]]
  | _ => False
  end.
Proof. vm_compute. reflexivity. Qed.

(** C3: MGET of two keys sent as one fragment whose upstream replies
    Error("ERR busy"): only the first slot gets a copy of the error, the
    second gets an empty Error; the error count still grows by two. *)
Theorem mget_error_reply_copied_to_first_slot_only :
  match InstanceImpl_makeRequest single_host pool_up insertion_order redis_commands
          (RArray [RBulkString "MGET"; RBulkString "a"; RBulkString "b"]) out0 with
  | Some (Some (MGETRequest s), o1) =>
      match deliver (MGETRequest s) [(0, ChildResponse (RError "ERR busy"))] o1 with
      | Some (MGETRequest s', o2) =>
          responses o2 = [RArray [RError "ERR busy"; RError ""]] /\
          error_count s' = error_count s + 2
      | _ => False
      end
  | _ => False
  end.
Proof. vm_compute. split; reflexivity. Qed.

(** ** Instances of the theorems on the sample deployment *)

Lemma makeRequest_invalid_request_witness :
  ((forall args, RInteger 1 <> RArray args) \/
   (exists args, RInteger 1 = RArray args /\
      (length args < 2 \/ exists v, In v args /\ forall s, v <> RBulkString s))) /\
  InstanceImpl_makeRequest single_host pool_up insertion_order redis_commands (RInteger 1) out0 =
    Some (None, out_respond (out_invalid out0) (RError "invalid request")).
Proof.
  assert (H : (forall args, RInteger 1 <> RArray args) \/
              (exists args, RInteger 1 = RArray args /\
                 (length args < 2 \/ exists v, In v args /\ forall s, v <> RBulkString s)))
    by (left; intros args; discriminate).
  split; [exact H|].
  exact (makeRequest_invalid_request single_host pool_up insertion_order redis_commands
           (RInteger 1) out0 H).
Defined.

Lemma makeRequest_case_insensitive_dispatch_witness :
  case_variant "get" "GeT" /\
  redis_commands !! to_lower "get" = redis_commands !! to_lower "GeT" /\
  well_formed_command [RBulkString "PING"; RBulkString "x"] /\
  redis_commands !! to_lower (asString (nth 0 [RBulkString "PING"; RBulkString "x"] RNull)) = None /\
  InstanceImpl_makeRequest single_host pool_up insertion_order redis_commands
    (RArray [RBulkString "PING"; RBulkString "x"]) out0 =
    Some (None, out_respond (out_unsupported out0) (RError "unsupported command 'PING'")).
Proof.
  assert (Hcv : case_variant "get" "GeT") by (simpl; repeat split; auto).
  assert (Hwf : well_formed_command [RBulkString "PING"; RBulkString "x"]).
  { split; [simpl; lia|]. repeat constructor; eexists; reflexivity. }
  assert (Hnone : redis_commands !! to_lower (asString (nth 0 [RBulkString "PING"; RBulkString "x"] RNull)) = None)
    by (vm_compute; reflexivity).
  destruct (makeRequest_case_insensitive_dispatch single_host pool_up insertion_order
              ["get"; "set"] ["eval"; "evalsha"]) as (_ & Hcase & _ & Hunsup).
  split; [exact Hcv|]. split; [exact (Hcase _ _ Hcv)|]. split; [exact Hwf|].
  split; [exact Hnone|]. exact (Hunsup _ out0 Hwf Hnone).
Defined.

Lemma eval_mset_wrong_number_of_arguments_witness :
  length [RBulkString "EVAL"; RBulkString "return 1"] < 4 /\
  startRequest single_host pool_up insertion_order EvalHandler
    (RArray [RBulkString "EVAL"; RBulkString "return 1"]) out0 =
    Some (None, out_respond out0 (RError "wrong number of arguments for 'EVAL' command")) /\
  (length [RBulkString "MSET"; RBulkString "a"] - 1) mod 2 <> 0 /\
  startRequest single_host pool_up insertion_order MSETHandler
    (RArray [RBulkString "MSET"; RBulkString "a"]) out0 =
    Some (None, out_respond out0 (RError "wrong number of arguments for 'MSET' command")).
Proof.
  destruct (eval_mset_wrong_number_of_arguments single_host pool_up insertion_order)
    as (Heval & Hmset & _).
  assert (H1 : length [RBulkString "EVAL"; RBulkString "return 1"] < 4) by (simpl; lia).
  assert (H2 : (length [RBulkString "MSET"; RBulkString "a"] - 1) mod 2 <> 0) by (simpl; lia).
  split; [exact H1|]. split; [exact (Heval _ out0 H1)|].
  split; [exact H2|]. exact (Hmset _ out0 H2).
Defined.

Lemma mget_protocol_error_slots_witness :
  (type_of (RInteger 7) = Integer \/ type_of (RInteger 7) = Null \/
   type_of (RInteger 7) = SimpleString) /\
  pending_response sample_state = Some (RArray [RNull; RNull]) /\
  0 < num_pending_responses sample_state /\
  exists s' o' arr',
    MGETRequest_onChildResponse (RInteger 7) 0 [0] sample_state out0 = Some (s', o') /\
    error_count s' = error_count sample_state + length [0] /\
    num_pending_responses s' = pred (num_pending_responses sample_state) /\
    length arr' = length [RNull; RNull] /\
    (forall j, j ∈ [0] -> j < length [RNull; RNull] -> arr' !! j = Some (RError "upstream protocol error")) /\
    (forall j, j ∉ [0] -> arr' !! j = [RNull; RNull] !! j) /\
    ((pending_response s' = Some (RArray arr') /\ o' = out0) \/
     (pending_response s' = None /\ o' = out_respond out0 (RArray arr'))).
Proof.
  assert (H1 : type_of (RInteger 7) = Integer \/ type_of (RInteger 7) = Null \/
               type_of (RInteger 7) = SimpleString) by (left; reflexivity).
  assert (H2 : pending_response sample_state = Some (RArray [RNull; RNull])) by reflexivity.
  assert (H3 : 0 < num_pending_responses sample_state) by (simpl; lia).
  split; [exact H1|]. split; [exact H2|]. split; [exact H3|].
  exact (mget_protocol_error_slots (RInteger 7) 0 [0] sample_state out0 _ H1 H2 H3).
Defined.

Lemma cancel_releases_handles_witness :
  pending_split (MGETRequest sample_state) /\
  exists r' o',
    cancel (MGETRequest sample_state) out0 = Some (r', o') /\
    cancels o' = cancels out0 ++ owned_handles (MGETRequest sample_state) /\
    responses o' = responses out0 /\
    upstream o' = upstream out0 /\
    owned_handles r' = [] /\
    live r' = [] /\
    (forall evs, Permutation (map fst evs) (live r') -> deliver r' evs o' = Some (r', o')).
Proof.
  assert (H : pending_split (MGETRequest sample_state)) by (simpl; lia).
  split; [exact H|]. exact (cancel_releases_handles (MGETRequest sample_state) out0 H).
Defined.

Lemma child_failure_is_upstream_failure_error_witness :
  pending_requests sample_state !! 0 = Some (mkPending 0 [0; 1] (Some 4)) /\
  pending_response sample_state = Some (RArray [RNull; RNull]) /\
  0 < num_pending_responses sample_state /\
  exists s' o' arr',
    on_child (MGETRequest sample_state) 0 ChildFailure out0 = Some (MGETRequest s', o') /\
    pending_requests s' = alter (set_handle None) 0 (pending_requests sample_state) /\
    num_pending_responses s' = 0 /\
    error_count s' = 2 /\
    (forall i, i ∈ [0; 1] -> i < 2 -> exists e, arr' !! i = Some (RError e)) /\
    (forall i, i ∉ [0; 1] -> arr' !! i = [RNull; RNull] !! i) /\
    (pending_response s' = None /\ o' = out_respond out0 (RArray arr')).
Proof.
  assert (H1 : pending_requests sample_state !! 0 = Some (mkPending 0 [0; 1] (Some 4))) by reflexivity.
  assert (H2 : pending_response sample_state = Some (RArray [RNull; RNull])) by reflexivity.
  assert (H3 : 0 < num_pending_responses sample_state) by (simpl; lia).
  split; [exact H1|]. split; [exact H2|]. split; [exact H3|].
  destruct child_failure_is_upstream_failure_error as (_ & _ & Hmget & _).
  exact (Hmget sample_state 0 out0 _ _ H1 H2 H3).
Defined.

Lemma mset_reply_ok_or_error_count_witness :
  2 <= length (asArray (RArray [RBulkString "MSET"; RBulkString "a"; RBulkString "1"])) /\
  (length (asArray (RArray [RBulkString "MSET"; RBulkString "a"; RBulkString "1"])) - 1) mod 2 = 0 /\
  match MSETRequest_create single_host pool_up insertion_order
          (RArray [RBulkString "MSET"; RBulkString "a"; RBulkString "1"]) out0 with
  | Some (Some r, o1) =>
      Permutation [0] (live r) ->
      exists r' o2,
        deliver r (events (fun _ => ChildResponse (RError "READONLY")) [0]) o1 = Some (r', o2) /\
        responses o2 = responses out0 ++ [mset_finished_error 1]
  | Some (None, o1) => responses o1 = responses out0 ++ [mset_finished_error 1]
  | None => False
  end.
Proof.
  assert (H1 : 2 <= length (asArray (RArray [RBulkString "MSET"; RBulkString "a"; RBulkString "1"])))
    by (simpl; lia).
  assert (H2 : (length (asArray (RArray [RBulkString "MSET"; RBulkString "a"; RBulkString "1"])) - 1)
                 mod 2 = 0) by reflexivity.
  split; [exact H1|]. split; [exact H2|].
  exact (mset_reply_ok_or_error_count single_host pool_up insertion_order insertion_order_perm
           _ out0 (fun _ => ChildResponse (RError "READONLY")) [0] H1 H2).
Defined.

Lemma makeRequest_single_response_witness :
  (forall X (m : list (string * list X)), Permutation (insertion_order X m) m) /\
  single_response out0
    (InstanceImpl_makeRequest single_host pool_up insertion_order redis_commands
       (RArray [RBulkString "MSET"; RBulkString "a"; RBulkString "1"]) out0)
    (fun _ => ChildResponse (RSimpleString "OK")) [0].
Proof.
  split; [exact insertion_order_perm|].
  exact (makeRequest_single_response single_host pool_up insertion_order insertion_order_perm
           redis_commands _ out0 _ [0]).
Defined.

Lemma mget_create_upstream_witness :
  2 <= length (asArray (RArray [RBulkString "MGET"; RBulkString "a"; RBulkString "b"])) /\
  exists r o', MGETRequest_create single_host pool_up insertion_order
                 (RArray [RBulkString "MGET"; RBulkString "a"; RBulkString "b"]) out0 = Some (r, o') /\
    upstream o' = upstream out0 ++
      map (fun g => (hd "" (map fst g.2), RArray (RBulkString "MGET" :: map (fun ki => RBulkString ki.1) g.2)))
          (insertion_order _ (mget_request_map single_host
                                (RArray [RBulkString "MGET"; RBulkString "a"; RBulkString "b"]))) /\
    Forall (fun g => single_host (hd "" (map fst g.2)) = g.1)
           (insertion_order _ (mget_request_map single_host
                                 (RArray [RBulkString "MGET"; RBulkString "a"; RBulkString "b"]))) /\
    cancels o' = cancels out0 /\ invalid_request o' = invalid_request out0 /\
    unsupported_command o' = unsupported_command out0 /\ command_totals o' = command_totals out0.
Proof.
  assert (H : 2 <= length (asArray (RArray [RBulkString "MGET"; RBulkString "a"; RBulkString "b"])))
    by (simpl; lia).
  split; [exact H|].
  exact (mget_create_upstream single_host pool_up insertion_order insertion_order_perm _ out0 H).
Defined.

Lemma mset_create_upstream_witness :
  2 <= length (asArray (RArray [RBulkString "MSET"; RBulkString "a"; RBulkString "1"])) /\
  (length (asArray (RArray [RBulkString "MSET"; RBulkString "a"; RBulkString "1"])) - 1) mod 2 = 0 /\
  exists r o', MSETRequest_create single_host pool_up insertion_order
                 (RArray [RBulkString "MSET"; RBulkString "a"; RBulkString "1"]) out0 = Some (r, o') /\
    upstream o' = upstream out0 ++
      map (fun g => (hd "" (map (fun kvi => kvi.1.1) g.2),
                     RArray (RBulkString "MSET" ::
                             flat_map (fun kvi => [RBulkString kvi.1.1; RBulkString kvi.1.2]) g.2)))
          (insertion_order _ (mset_request_map single_host
                                (RArray [RBulkString "MSET"; RBulkString "a"; RBulkString "1"]))) /\
    Forall (fun g => single_host (hd "" (map (fun kvi => kvi.1.1) g.2)) = g.1)
           (insertion_order _ (mset_request_map single_host
                                 (RArray [RBulkString "MSET"; RBulkString "a"; RBulkString "1"]))) /\
    cancels o' = cancels out0 /\ invalid_request o' = invalid_request out0 /\
    unsupported_command o' = unsupported_command out0 /\ command_totals o' = command_totals out0.
Proof.
  assert (H1 : 2 <= length (asArray (RArray [RBulkString "MSET"; RBulkString "a"; RBulkString "1"])))
    by (simpl; lia).
  assert (H2 : (length (asArray (RArray [RBulkString "MSET"; RBulkString "a"; RBulkString "1"])) - 1)
                 mod 2 = 0) by reflexivity.
  split; [exact H1|]. split; [exact H2|].
  exact (mset_create_upstream single_host pool_up insertion_order insertion_order_perm _ out0 H1 H2).
Defined.



Lemma mget_reply_from_store_witness :
  2 <= length (asArray (RArray [RBulkString "MGET"; RBulkString "a"; RBulkString "b"])) /\
  (forall key frag, pool_up key frag <> None) /\
  (forall k, (if String.eqb k "a" then RBulkString "1" else RNull) = RNull \/
             exists str, (if String.eqb k "a" then RBulkString "1" else RNull) = RBulkString str) /\
  exists r o1, MGETRequest_create single_host pool_up insertion_order
                 (RArray [RBulkString "MGET"; RBulkString "a"; RBulkString "b"]) out0 = Some (Some r, o1) /\
    responses o1 = responses out0 /\
    forall order, Permutation order (live r) ->
      exists r' o2,
        deliver r (events (mget_store_reply single_host insertion_order
                             (fun k => if String.eqb k "a" then RBulkString "1" else RNull)
                             (RArray [RBulkString "MGET"; RBulkString "a"; RBulkString "b"])) order) o1 =
          Some (r', o2) /\
        responses o2 = responses out0 ++
          [RArray (map (fun a => if String.eqb (asString a) "a" then RBulkString "1" else RNull)
                       (tl (asArray (RArray [RBulkString "MGET"; RBulkString "a"; RBulkString "b"]))))].
Proof.
  assert (H1 : 2 <= length (asArray (RArray [RBulkString "MGET"; RBulkString "a"; RBulkString "b"])))
    by (simpl; lia).
  assert (H2 : forall key frag, pool_up key frag <> None) by (intros key frag; discriminate).
  assert (H3 : forall k, (if String.eqb k "a" then RBulkString "1" else RNull) = RNull \/
             exists str, (if String.eqb k "a" then RBulkString "1" else RNull) = RBulkString str).
  { intros k. destruct (String.eqb k "a"); [right; eexists; reflexivity|left; reflexivity]. }
  split; [exact H1|]. split; [exact H2|]. split; [exact H3|].
  exact (mget_reply_from_store single_host pool_up insertion_order insertion_order_perm _ out0
           (fun k => if String.eqb k "a" then RBulkString "1" else RNull) H1 H2 H3).
Defined.

Lemma makeRequest_counts_one_stat_witness :
  exists r o',
    InstanceImpl_makeRequest single_host pool_up insertion_order redis_commands
      (RArray [RBulkString "GET"; RBulkString "a"]) out0 = Some (r, o') /\
    ((r = None /\ upstream o' = upstream out0 /\ invalid_request o' = S (invalid_request out0) /\
      unsupported_command o' = unsupported_command out0 /\ command_totals o' = command_totals out0) \/
     (r = None /\ upstream o' = upstream out0 /\ invalid_request o' = invalid_request out0 /\
      unsupported_command o' = S (unsupported_command out0) /\ command_totals o' = command_totals out0) \/
     (invalid_request o' = invalid_request out0 /\ unsupported_command o' = unsupported_command out0 /\
      command_totals o' = command_totals out0 ++
        [to_lower (asString (nth 0 (asArray (RArray [RBulkString "GET"; RBulkString "a"])) RNull))])).
Proof.
  eexists _, _.
  assert (H : InstanceImpl_makeRequest single_host pool_up insertion_order redis_commands
                (RArray [RBulkString "GET"; RBulkString "a"]) out0 =
              Some (Some (SingleServerRequest (Some 0)),
                    mkOut [] [("a", RArray [RBulkString "GET"; RBulkString "a"])] [] 0 0 ["get"]))
    by (vm_compute; reflexivity).
  split; [exact H|].
  exact (makeRequest_counts_one_stat single_host pool_up insertion_order redis_commands _ out0 _ _ H).
Defined.

Lemma simple_command_forwarded_witness :
  well_formed_command [RBulkString "GET"; RBulkString "a"] /\
  redis_commands !! to_lower (asString (nth 0 [RBulkString "GET"; RBulkString "a"] RNull)) = Some SimpleHandler /\
  let key := asString (nth 1 [RBulkString "GET"; RBulkString "a"] RNull) in
  let o1 := out_upstream (out_total out0 (to_lower (asString (nth 0 [RBulkString "GET"; RBulkString "a"] RNull))))
              key (RArray [RBulkString "GET"; RBulkString "a"]) in
  match pool_up key (RArray [RBulkString "GET"; RBulkString "a"]) with
  | None => InstanceImpl_makeRequest single_host pool_up insertion_order redis_commands
              (RArray [RBulkString "GET"; RBulkString "a"]) out0 =
              Some (None, out_respond o1 (makeError "no upstream host"))
  | Some h =>
      InstanceImpl_makeRequest single_host pool_up insertion_order redis_commands
        (RArray [RBulkString "GET"; RBulkString "a"]) out0 = Some (Some (SingleServerRequest (Some h)), o1) /\
      (forall v, deliver (SingleServerRequest (Some h)) [(0, ChildResponse v)] o1 =
                   Some (SingleServerRequest None, out_respond o1 v)) /\
      deliver (SingleServerRequest (Some h)) [(0, ChildFailure)] o1 =
        Some (SingleServerRequest None, out_respond o1 (makeError "upstream failure"))
  end.
Proof.
  assert (Hwf : well_formed_command [RBulkString "GET"; RBulkString "a"]).
  { split; [simpl; lia|]. repeat constructor; eexists; reflexivity. }
  assert (Hh : redis_commands !! to_lower (asString (nth 0 [RBulkString "GET"; RBulkString "a"] RNull)) =
                 Some SimpleHandler) by (vm_compute; reflexivity).
  split; [exact Hwf|]. split; [exact Hh|].
  exact (simple_command_forwarded single_host pool_up insertion_order redis_commands _ out0 Hwf Hh).
Defined.

Lemma eval_command_forwarded_witness :
  well_formed_command [RBulkString "EVAL"; RBulkString "s"; RBulkString "1"; RBulkString "k"] /\
  4 <= length [RBulkString "EVAL"; RBulkString "s"; RBulkString "1"; RBulkString "k"] /\
  redis_commands !! to_lower (asString (nth 0 [RBulkString "EVAL"; RBulkString "s"; RBulkString "1";
                                                RBulkString "k"] RNull)) = Some EvalHandler /\
  let args := [RBulkString "EVAL"; RBulkString "s"; RBulkString "1"; RBulkString "k"] in
  let key := asString (nth 3 args RNull) in
  let o1 := out_upstream (out_total out0 (to_lower (asString (nth 0 args RNull)))) key (RArray args) in
  match pool_up key (RArray args) with
  | None => InstanceImpl_makeRequest single_host pool_up insertion_order redis_commands (RArray args) out0 =
              Some (None, out_respond o1 (makeError "no upstream host"))
  | Some h =>
      InstanceImpl_makeRequest single_host pool_up insertion_order redis_commands (RArray args) out0 =
        Some (Some (SingleServerRequest (Some h)), o1) /\
      (forall v, deliver (SingleServerRequest (Some h)) [(0, ChildResponse v)] o1 =
                   Some (SingleServerRequest None, out_respond o1 v)) /\
      deliver (SingleServerRequest (Some h)) [(0, ChildFailure)] o1 =
        Some (SingleServerRequest None, out_respond o1 (makeError "upstream failure"))
  end.
Proof.
  assert (Hwf : well_formed_command [RBulkString "EVAL"; RBulkString "s"; RBulkString "1"; RBulkString "k"]).
  { split; [simpl; lia|]. repeat constructor; eexists; reflexivity. }
  assert (Hlen : 4 <= length [RBulkString "EVAL"; RBulkString "s"; RBulkString "1"; RBulkString "k"])
    by (simpl; lia).
  assert (Hh : redis_commands !! to_lower (asString (nth 0 [RBulkString "EVAL"; RBulkString "s";
                 RBulkString "1"; RBulkString "k"] RNull)) = Some EvalHandler) by (vm_compute; reflexivity).
  split; [exact Hwf|]. split; [exact Hlen|]. split; [exact Hh|].
  exact (eval_command_forwarded single_host pool_up insertion_order redis_commands _ out0 Hwf Hlen Hh).
Defined.

Lemma mget_reply_one_slot_per_key_witness :
  exists r o1,
    MGETRequest_create single_host pool_down insertion_order
      (RArray [RBulkString "MGET"; RBulkString "a"; RBulkString "b"]) out0 = Some (r, o1) /\
    let n := length (asArray (RArray [RBulkString "MGET"; RBulkString "a"; RBulkString "b"])) - 1 in
    (exists new, responses o1 = responses out0 ++ new /\
       Forall (fun v => exists arr, v = RArray arr /\ length arr = n) new) /\
    match r with
    | Some req =>
        forall evs req' o2, deliver req evs o1 = Some (req', o2) ->
          exists new, responses o2 = responses o1 ++ new /\
            Forall (fun v => exists arr, v = RArray arr /\ length arr = n) new
    | None => True
    end.
Proof.
  eexists _, _.
  assert (H : MGETRequest_create single_host pool_down insertion_order
                (RArray [RBulkString "MGET"; RBulkString "a"; RBulkString "b"]) out0 =
              Some (None, mkOut [RArray [RError "no upstream host"; RError ""]]
                                [("a", RArray [RBulkString "MGET"; RBulkString "a"; RBulkString "b"])]
                                [] 0 0 [])) by (vm_compute; reflexivity).
  split; [exact H|].
  exact (mget_reply_one_slot_per_key single_host pool_down insertion_order _ out0 _ _ H).
Defined.
